(** * EduTutor quiz service: a shallow embedding of [main.py]

    The two request handlers of [main.py], [generate_quiz] and
    [submit_quiz], are embedded as functions in a state-and-exception
    monad.  The state is the Pinecone index (used as a document store)
    and the number of [uuid.uuid4()] calls made so far; the language
    model, the prompt object and the entropy behind [uuid4] are the
    module-level objects the handlers close over, and the limits of the
    interpreter are those [json.loads] runs into.

    Python values are embedded as [pyval]; Python [str] is embedded as
    the byte string of its UTF-8 encoding. *)

From Stdlib Require Import ZArith NArith Ascii String List Lia.
From stdpp Require Import base option list gmap strings.

Set Warnings "-register-all".
Local Open Scope Z_scope.

(** ** Python values and exceptions *)

(** The values [json.loads] produces and the handlers build.  A float is
    kept as the lexeme it was read from; a [dict], whose keys are [str]
    throughout this program, is a finite map (the order of its keys,
    which no handler depends on, is not kept). *)
Inductive pyval : Type :=
| PNone
| PBool (b : bool)
| PInt (z : Z)
| PFloat (lexeme : string)
| PStr (s : string)
| PList (l : list pyval)
| PDict (d : gmap string pyval).

(** Exceptions.  [HTTPException] is a subclass of [Exception], like all
    the others here.  The detail of an [HTTPException] is either a
    literal text or [str(e)] of a caught exception, kept symbolically. *)
Inductive exn : Type :=
| HTTPException (status_code : Z) (detail : http_detail)
| KeyError (key : string)
| IndexError
| TypeError
| ValueError
| AttributeError
| JSONDecodeError
| RecursionError
| PineconeException
| WatsonxError
with http_detail : Type :=
| Text (s : string)
| StrOf (e : exn).

Definition res (A : Type) : Type := (exn + A)%type.

(** ** [str] operations used by the handlers *)

Module Str.

Fixpoint find_from (c : ascii) (s : string) (i : Z) : Z :=
  match s with
  | EmptyString => -1
  | String a s' => if Ascii.eqb a c then i else find_from c s' (i + 1)
  end.

(** [s.find(c)] for a one-character [c]: lowest index, or [-1]. *)
Definition find (s : string) (c : ascii) : Z := find_from c s 0.

Fixpoint rfind_from (c : ascii) (s : string) (i last : Z) : Z :=
  match s with
  | EmptyString => last
  | String a s' => rfind_from c s' (i + 1) (if Ascii.eqb a c then i else last)
  end.

(** [s.rfind(c)]: highest index, or [-1]. *)
Definition rfind (s : string) (c : ascii) : Z := rfind_from c s 0 (-1).

(** A slice bound as [PySlice_AdjustIndices] clamps it. *)
Definition adjust (n i : Z) : Z :=
  if i <? 0 then Z.max (i + n) 0 else Z.min i n.

(** [s[start:stop]]. *)
Definition slice (s : string) (start stop : Z) : string :=
  let n := Z.of_nat (String.length s) in
  let lo := adjust n start in
  let hi := adjust n stop in
  substring (Z.to_nat lo) (Z.to_nat (hi - lo)) s.

(** [c in s]. *)
Fixpoint contains (s : string) (c : ascii) : bool :=
  match s with
  | EmptyString => false
  | String a s' => Ascii.eqb a c || contains s' c
  end.

(** [s + c]. *)
Definition snoc (s : string) (c : ascii) : string := s +:+ String c EmptyString.

(** An ASCII digit. *)
Definition is_digit (c : ascii) : bool :=
  (48 <=? nat_of_ascii c)%nat && (nat_of_ascii c <=? 57)%nat.

Fixpoint all_digits (s : string) : bool :=
  match s with
  | EmptyString => true
  | String c s' => is_digit c && all_digits s'
  end.

(** The number a string of digits denotes, continuing from [acc]. *)
Fixpoint decimal (s : string) (acc : Z) : Z :=
  match s with
  | EmptyString => acc
  | String c s' => decimal s' (10 * acc + (Z.of_nat (nat_of_ascii c) - 48))
  end.

End Str.

(** ** [langchain.prompts.PromptTemplate]

    A [PromptTemplate] with the default [template_format="f-string"]
    renders with [string.Formatter]: [{name}] is a replacement field,
    [{{] and [}}] stand for literal braces.  The formatter reads the
    template left to right and raises at the first offending place. *)

Record PromptTemplate : Type := {
  input_variables : list string;
  template : string
}.

Module Formatter.

Definition kwargs : Type := list (string * string).

Fixpoint get_value (kw : kwargs) (key : string) : res string :=
  match kw with
  | [] => inl (KeyError key)
  | (k, v) :: kw' => if String.eqb k key then inr v else get_value kw' key
  end.

(** [formatter_field_name_split]: the part of a field name before the
    first ['.'] or ['['], and the accessors after it. *)
Fixpoint field_name_split (name : string) : string * string :=
  match name with
  | EmptyString => (EmptyString, EmptyString)
  | String c s' =>
      if Ascii.eqb c "." || Ascii.eqb c "[" then (EmptyString, name)
      else let '(first, rest) := field_name_split s' in (String c first, rest)
  end.

Section WithFieldFormatting.

(** What the formatter does with a field whose argument was found
    and which carries accessors ([.attr], [[i]]), a conversion
    ([!r]) or a format specification ([:>10]): left uninterpreted,
    the templates of this program have no such field. *)
Variable render_field :
  kwargs -> string -> string -> option ascii -> string -> res string.

(** One replacement field, as [Formatter._vformat] handles it with
    no positional arguments: an empty or numeric name indexes the
    empty argument tuple, any other name is looked up in [kw]. *)
Definition field (kw : kwargs) (name : string) (conv : option ascii)
    (spec : string) : res string :=
  let '(first, rest) := field_name_split name in
  match name with
  | EmptyString => inl IndexError
  | _ =>
      if Str.all_digits first && negb (String.eqb first EmptyString)
      then (if Str.decimal first 0 <=? 9223372036854775807
            then inl IndexError else inl ValueError)
      else
        match get_value kw first with
        | inl e => inl e
        | inr v =>
            match rest, conv, spec with
            | EmptyString, None, EmptyString => inr v
            | _, _, _ => render_field kw v rest conv spec
            end
        end
  end.

(** Where the scanner ([MarkupIterator_next], [parse_field]) is. *)
Inductive state : Type :=
| Literal
| Open                       (* after a '{' *)
| Close                      (* after a '}' *)
| Name (name : string)       (* in a field name *)
| NameIndex (name : string)  (* in a field name, after '[' up to ']' *)
| Conv (name : string)       (* after '!' *)
| ConvEnd (name : string) (conv : ascii)
| Spec (name : string) (conv : option ascii) (spec : string) (depth : nat).

(** One character: the new state and the text to append, or the
    exception raised. *)
Definition step (kw : kwargs) (st : state) (c : ascii) : res (state * string) :=
  let in_name (name : string) : res (state * string) :=
    if Ascii.eqb c "{" then inl ValueError
    else if Ascii.eqb c "[" then inr (NameIndex (Str.snoc name c), EmptyString)
    else if Ascii.eqb c "}" then
      match field kw name None EmptyString with
      | inl e => inl e
      | inr v => inr (Literal, v)
      end
    else if Ascii.eqb c ":" then inr (Spec name None EmptyString 1, EmptyString)
    else if Ascii.eqb c "!" then inr (Conv name, EmptyString)
    else inr (Name (Str.snoc name c), EmptyString) in
  match st with
  | Literal =>
      if Ascii.eqb c "{" then inr (Open, EmptyString)
      else if Ascii.eqb c "}" then inr (Close, EmptyString)
      else inr (Literal, String c EmptyString)
  | Open =>
      if Ascii.eqb c "{" then inr (Literal, String c EmptyString)
      else in_name EmptyString
  | Close =>
      if Ascii.eqb c "}" then inr (Literal, String c EmptyString)
      else inl ValueError
  | Name name => in_name name
  | NameIndex name =>
      if Ascii.eqb c "]" then inr (Name (Str.snoc name c), EmptyString)
      else inr (NameIndex (Str.snoc name c), EmptyString)
  | Conv name => inr (ConvEnd name c, EmptyString)
  | ConvEnd name conv =>
      if Ascii.eqb c "}" then
        match field kw name (Some conv) EmptyString with
        | inl e => inl e
        | inr v => inr (Literal, v)
        end
      else if Ascii.eqb c ":" then inr (Spec name (Some conv) EmptyString 1, EmptyString)
      else inl ValueError
  | Spec name conv spec depth =>
      if Ascii.eqb c "{" then inr (Spec name conv (Str.snoc spec c) (S depth), EmptyString)
      else if Ascii.eqb c "}" then
        match depth with
        | 1%nat =>
            match field kw name conv spec with
            | inl e => inl e
            | inr v => inr (Literal, v)
            end
        | _ => inr (Spec name conv (Str.snoc spec c) (Nat.pred depth), EmptyString)
        end
      else inr (Spec name conv (Str.snoc spec c) depth, EmptyString)
  end.

Fixpoint run (kw : kwargs) (st : state) (s : string) : res string :=
  match s with
  | EmptyString =>
      match st with
      | Literal => inr EmptyString
      | _ => inl ValueError
      end
  | String c s' =>
      match step kw st c with
      | inl e => inl e
      | inr (st', out) =>
          match run kw st' s' with
          | inl e => inl e
          | inr tail => inr (out +:+ tail)
          end
      end
  end.

(** [Formatter().vformat(format_string, (), kw)]. *)
Definition vformat (format_string : string) (kw : kwargs) : res string :=
  run kw Literal format_string.

End WithFieldFormatting.

End Formatter.

(** [PromptTemplate.format] applied to keyword arguments [kw]. *)
Definition PromptTemplate_format
    (render_field : Formatter.kwargs -> string -> string -> option ascii -> string -> res string)
    (p : PromptTemplate) (kw : Formatter.kwargs) : res string :=
  Formatter.vformat render_field (template p) kw.

(** Lines 48-51. *)
Definition quiz_prompt : PromptTemplate := {|
  input_variables := ["topic"; "difficulty"]%string;
  template := "Generate 5 {difficulty} multiple-choice questions about {topic}. Format as JSON: [{'id':'uuid','question':'text','options':['a','b','c','d'],'correct_answer':'a'}]"
|}.

(** ** Operations on Python values *)

Module Py.

(** [o[k]] for a [str] key [k]. *)
Definition getitem (o : pyval) (k : string) : res pyval :=
  match o with
  | PDict d =>
      match d !! k with
      | Some v => inr v
      | None => inl (KeyError k)
      end
  | _ => inl TypeError
  end.

(** [o[k] = v] for a [str] key [k]; the object after the assignment. *)
Definition setitem (o : pyval) (k : string) (v : pyval) : res pyval :=
  match o with
  | PDict d => inr (PDict (<[k := v]> d))
  | _ => inl TypeError
  end.

(** [{**o, k: v}]. *)
Definition unpack_with (o : pyval) (k : string) (v : pyval) : res pyval :=
  match o with
  | PDict d => inr (PDict (<[k := v]> d))
  | _ => inl TypeError
  end.

(** The code points of a [str], each as a [str]: a byte that is not a
    UTF-8 continuation byte starts a new one. *)
Definition is_continuation (c : ascii) : bool :=
  (128 <=? nat_of_ascii c)%nat && (nat_of_ascii c <? 192)%nat.

Fixpoint chars_from (cur : string) (s : string) : list string :=
  match s with
  | EmptyString => [cur]
  | String c s' =>
      if is_continuation c then chars_from (cur +:+ String c EmptyString) s'
      else cur :: chars_from (String c EmptyString) s'
  end.

Definition chars (s : string) : list string :=
  match s with
  | EmptyString => []
  | String c s' => chars_from (String c EmptyString) s'
  end.

(** The items [for q in o] runs through. *)
Definition iter (o : pyval) : res (list pyval) :=
  match o with
  | PList l => inr l
  | PStr s => inr (PStr <$> chars s)
  | PDict d => inr (PStr <$> (map_to_list d).*1)
  | _ => inl TypeError
  end.

(** [len(o)]. *)
Definition len (o : pyval) : res Z :=
  match o with
  | PList l => inr (Z.of_nat (length l))
  | PStr s => inr (Z.of_nat (length (chars s)))
  | PDict d => inr (Z.of_nat (size d))
  | _ => inl TypeError
  end.

(** [o.get(k, default)]. *)
Definition get_default (o : pyval) (k : string) (default : pyval) : res pyval :=
  match o with
  | PDict d => inr (from_option id default (d !! k))
  | _ => inl AttributeError
  end.

(** [responses.get(k)] on a [dict[str, str]]: a key that is not a
    [str] is never found, an unhashable one raises. *)
Definition get (responses : gmap string string) (k : pyval) : res (option string) :=
  match k with
  | PStr s => inr (responses !! s)
  | PList _ | PDict _ => inl TypeError
  | _ => inr None
  end.

(** [a == v] where [a] is the result of [responses.get]: a [str] or
    [None]. *)
Definition eq (a : option string) (v : pyval) : bool :=
  match a, v with
  | Some x, PStr y => String.eqb x y
  | None, PNone => true
  | _, _ => false
  end.

End Py.

(** ** [json.loads]

    CPython's decoder as a scanner followed by a stack automaton; both
    read their input once, left to right, and what goes wrong first
    decides the exception.  Malformed text raises [JSONDecodeError].
    Well-formed text can still run into two limits of the interpreter:
    [int] refuses a decimal text of too many digits with [ValueError],
    and a container opened too deep inside others raises
    [RecursionError]. *)

Module Json.

(** The interpreter's limits.  [int_max_str_digits] is
    [sys.get_int_max_str_digits()]: 4300 unless set otherwise, 0 for no
    limit (also for an interpreter from before the limit existed).
    [max_nesting] is the number of containers that can be open at once
    before the recursion limit is hit; it depends on the limit set and
    on how deep the caller of [json.loads] already is. *)
Record Limits : Type := {
  int_max_str_digits : nat;
  max_nesting : nat
}.

(** [TInt] is a number without fraction or exponent, not yet
    converted: [int] is applied to it where a value is expected.
    [TError] stands where the scanner cannot go on; nothing after it is
    looked at. *)
Inductive token : Type :=
| TLBracket | TRBracket | TLBrace | TRBrace | TComma | TColon
| TString (s : string)
| TInt (lexeme : string)
| TAtom (v : pyval)
| TError.

(** A piece of a string literal: a byte of the text, or the 16-bit
    unit of a [\uXXXX] escape. *)
Inductive sitem : Type :=
| SByte (c : ascii)
| SUnit (u : N).

Definition byte (n : N) : ascii := ascii_of_N n.

(** UTF-8 of a code point (a lone surrogate is encoded like any other
    three-byte code point). *)
Definition utf8 (cp : N) : string :=
  (if cp <? 128 then String (byte cp) EmptyString
   else if cp <? 2048 then
     String (byte (192 + N.shiftr cp 6))
       (String (byte (128 + N.land cp 63)) EmptyString)
   else if cp <? 65536 then
     String (byte (224 + N.shiftr cp 12))
       (String (byte (128 + N.land (N.shiftr cp 6) 63))
         (String (byte (128 + N.land cp 63)) EmptyString))
   else
     String (byte (240 + N.shiftr cp 18))
       (String (byte (128 + N.land (N.shiftr cp 12) 63))
         (String (byte (128 + N.land (N.shiftr cp 6) 63))
           (String (byte (128 + N.land cp 63)) EmptyString))))%N.

Definition is_high (u : N) : bool := ((55296 <=? u) && (u <=? 56319))%N.
Definition is_low (u : N) : bool := ((56320 <=? u) && (u <=? 57343))%N.

(** The text of a string literal: an escaped high surrogate directly
    followed by an escaped low surrogate is one code point. *)
Fixpoint decode (items : list sitem) : string :=
  match items with
  | [] => EmptyString
  | SByte c :: rest => String c (decode rest)
  | SUnit hi :: rest =>
      match rest with
      | SUnit lo :: rest' =>
          if is_high hi && is_low lo
          then utf8 (65536 + N.shiftl (hi - 55296) 10 + (lo - 56320))%N +:+ decode rest'
          else utf8 hi +:+ decode rest
      | _ => utf8 hi +:+ decode rest
      end
  end.

Definition hex_value (c : ascii) : option N :=
  let n := N_of_ascii c in
  (if (48 <=? n) && (n <=? 57) then Some (n - 48)
   else if (97 <=? n) && (n <=? 102) then Some (n - 87)
   else if (65 <=? n) && (n <=? 70) then Some (n - 55)
   else None)%N.

Definition is_space (c : ascii) : bool :=
  Ascii.eqb c " " || Ascii.eqb c "009" || Ascii.eqb c "010" || Ascii.eqb c "013".

(** The number of digits of [-?digits]. *)
Definition int_digits (lexeme : string) : nat :=
  match lexeme with
  | String "-" ds => String.length ds
  | _ => String.length lexeme
  end.

(** [int(lexeme)] raises [ValueError]: the text has more digits than
    the limit allows.  The limit is only looked at past 640 digits,
    below which it cannot be set. *)
Definition exceeds (lim : Limits) (lexeme : string) : bool :=
  let digits := int_digits lexeme in
  (640 <? digits)%nat && (0 <? int_max_str_digits lim)%nat
  && (int_max_str_digits lim <? digits)%nat.

(** The value of [int(lexeme)] for [-?digits]. *)
Definition parse_int (lexeme : string) : Z :=
  match lexeme with
  | String "-" ds => - Str.decimal ds 0
  | _ => Str.decimal lexeme 0
  end.

(** Where the scanner is.  In a number, the text read so far; after a
    ['.'] the integer before it, and after an exponent mark the number
    before it, which is what was read if no digit follows. *)
Inductive lstate : Type :=
| LTop
| LWord (rest : string) (v : pyval)
| LMinus
| LZero (lexeme : string)
| LInt (lexeme : string)
| LDot (int : string)
| LFrac (lexeme : string)
| LExpMark (num : token) (lexeme : string)
| LExpSign (num : token) (lexeme : string)
| LExp (lexeme : string)
| LStr (acc : list sitem)
| LEsc (acc : list sitem)
| LHex (acc : list sitem) (todo : nat) (u : N).

(** A character where a token may start. *)
Definition lex_top (c : ascii) : option (lstate * list token) :=
  if is_space c then Some (LTop, [])
  else if Ascii.eqb c "[" then Some (LTop, [TLBracket])
  else if Ascii.eqb c "]" then Some (LTop, [TRBracket])
  else if Ascii.eqb c "{" then Some (LTop, [TLBrace])
  else if Ascii.eqb c "}" then Some (LTop, [TRBrace])
  else if Ascii.eqb c "," then Some (LTop, [TComma])
  else if Ascii.eqb c ":" then Some (LTop, [TColon])
  else if Ascii.eqb c "034" then Some (LStr [], [])
  else if Ascii.eqb c "n" then Some (LWord "ull" PNone, [])
  else if Ascii.eqb c "t" then Some (LWord "rue" (PBool true), [])
  else if Ascii.eqb c "f" then Some (LWord "alse" (PBool false), [])
  else if Ascii.eqb c "N" then Some (LWord "aN" (PFloat "NaN"), [])
  else if Ascii.eqb c "I" then Some (LWord "nfinity" (PFloat "Infinity"), [])
  else if Ascii.eqb c "-" then Some (LMinus, [])
  else if Ascii.eqb c "0" then Some (LZero "0", [])
  else if Str.is_digit c then Some (LInt (String c EmptyString), [])
  else None.

(** A number ends before [c]: its token, then [c] starts afresh. *)
Definition lex_after (num : token) (c : ascii) : option (lstate * list token) :=
  match lex_top c with
  | Some (st, ts) => Some (st, num :: ts)
  | None => None
  end.

Definition is_exp_mark (c : ascii) : bool := Ascii.eqb c "e" || Ascii.eqb c "E".

(** One character: the new state and the tokens completed, or [None]
    where the scanner cannot go on. *)
Definition lex_step (st : lstate) (c : ascii) : option (lstate * list token) :=
  match st with
  | LTop => lex_top c
  | LWord rest v =>
      match rest with
      | String x EmptyString => if Ascii.eqb c x then Some (LTop, [TAtom v]) else None
      | String x rest' => if Ascii.eqb c x then Some (LWord rest' v, []) else None
      | EmptyString => None
      end
  | LMinus =>
      if Ascii.eqb c "0" then Some (LZero "-0", [])
      else if Str.is_digit c then Some (LInt (String "-" (String c EmptyString)), [])
      else if Ascii.eqb c "I" then Some (LWord "nfinity" (PFloat "-Infinity"), [])
      else None
  | LZero lx =>
      if Ascii.eqb c "." then Some (LDot lx, [])
      else if is_exp_mark c then Some (LExpMark (TInt lx) (Str.snoc lx c), [])
      else lex_after (TInt lx) c
  | LInt lx =>
      if Str.is_digit c then Some (LInt (Str.snoc lx c), [])
      else if Ascii.eqb c "." then Some (LDot lx, [])
      else if is_exp_mark c then Some (LExpMark (TInt lx) (Str.snoc lx c), [])
      else lex_after (TInt lx) c
  | LDot int =>
      if Str.is_digit c then Some (LFrac (Str.snoc (Str.snoc int ".") c), []) else None
  | LFrac lx =>
      if Str.is_digit c then Some (LFrac (Str.snoc lx c), [])
      else if is_exp_mark c then Some (LExpMark (TAtom (PFloat lx)) (Str.snoc lx c), [])
      else lex_after (TAtom (PFloat lx)) c
  | LExpMark num lx =>
      if Ascii.eqb c "+" || Ascii.eqb c "-" then Some (LExpSign num (Str.snoc lx c), [])
      else if Str.is_digit c then Some (LExp (Str.snoc lx c), [])
      else None
  | LExpSign num lx => if Str.is_digit c then Some (LExp (Str.snoc lx c), []) else None
  | LExp lx =>
      if Str.is_digit c then Some (LExp (Str.snoc lx c), [])
      else lex_after (TAtom (PFloat lx)) c
  | LStr acc =>
      if Ascii.eqb c "034" then Some (LTop, [TString (decode (rev acc))])
      else if Ascii.eqb c "\" then Some (LEsc acc, [])
      else if (nat_of_ascii c <? 32)%nat then None
      else Some (LStr (SByte c :: acc), [])
  | LEsc acc =>
      if Ascii.eqb c "034" || Ascii.eqb c "\" || Ascii.eqb c "/"
      then Some (LStr (SByte c :: acc), [])
      else if Ascii.eqb c "b" then Some (LStr (SByte "008" :: acc), [])
      else if Ascii.eqb c "f" then Some (LStr (SByte "012" :: acc), [])
      else if Ascii.eqb c "n" then Some (LStr (SByte "010" :: acc), [])
      else if Ascii.eqb c "r" then Some (LStr (SByte "013" :: acc), [])
      else if Ascii.eqb c "t" then Some (LStr (SByte "009" :: acc), [])
      else if Ascii.eqb c "u" then Some (LHex acc 4 0%N, [])
      else None
  | LHex acc todo u =>
      match hex_value c, todo with
      | Some h, 1%nat => Some (LStr (SUnit (16 * u + h)%N :: acc), [])
      | Some h, S todo' => Some (LHex acc todo' (16 * u + h)%N, [])
      | _, _ => None
      end
  end.

(** The number read when the scanner stops in [st]. *)
Definition pending (st : lstate) : list token :=
  match st with
  | LZero lx | LInt lx | LDot lx => [TInt lx]
  | LFrac lx | LExp lx => [TAtom (PFloat lx)]
  | LExpMark num _ | LExpSign num _ => [num]
  | _ => []
  end.

(** The text may end in [st]. *)
Definition complete (st : lstate) : bool :=
  match st with
  | LTop | LZero _ | LInt _ | LFrac _ | LExp _ => true
  | _ => false
  end.

Definition lex_end (st : lstate) : list token :=
  pending st ++ (if complete st then [] else [TError]).

Fixpoint lex (st : lstate) (s : string) : list token :=
  match s with
  | EmptyString => lex_end st
  | String c s' =>
      match lex_step st c with
      | Some (st', ts) => ts ++ lex st' s'
      | None => pending st ++ [TError]
      end
  end.

(** A container being read, with what it holds so far. *)
Inductive frame : Type :=
| InList (acc : list pyval)
| InDict (d : gmap string pyval) (key : option string).

(** What may come next. *)
Inductive expect : Type :=
| Value (close_ok : bool)
| Key (close_ok : bool)
| Colon
| Delim
| End (v : pyval).

Definition reduce (stack : list frame) (v : pyval) : res (list frame * expect) :=
  match stack with
  | [] => inr ([], End v)
  | InList acc :: st => inr (InList (v :: acc) :: st, Delim)
  | InDict d (Some k) :: st => inr (InDict (<[k := v]> d) None :: st, Delim)
  | InDict d None :: st => inl JSONDecodeError
  end.

(** A container opens inside those of [stack]. *)
Definition enter (lim : Limits) (stack : list frame) (f : frame) (ex : expect)
    : res (list frame * expect) :=
  if (length stack <? max_nesting lim)%nat then inr (f :: stack, ex)
  else inl RecursionError.

Definition close_list (stack : list frame) : res (list frame * expect) :=
  match stack with
  | InList acc :: st => reduce st (PList (rev acc))
  | _ => inl JSONDecodeError
  end.

Definition close_dict (stack : list frame) : res (list frame * expect) :=
  match stack with
  | InDict d None :: st => reduce st (PDict d)
  | _ => inl JSONDecodeError
  end.

Definition parse_step (lim : Limits) (stack : list frame) (ex : expect) (t : token)
    : res (list frame * expect) :=
  match ex, t with
  | Value _, TLBracket => enter lim stack (InList []) (Value true)
  | Value _, TLBrace => enter lim stack (InDict ∅ None) (Key true)
  | Value _, TString s => reduce stack (PStr s)
  | Value _, TInt lx =>
      if exceeds lim lx then inl ValueError else reduce stack (PInt (parse_int lx))
  | Value _, TAtom v => reduce stack v
  | Value true, TRBracket => close_list stack
  | Key _, TString k =>
      match stack with
      | InDict d None :: st => inr (InDict d (Some k) :: st, Colon)
      | _ => inl JSONDecodeError
      end
  | Key true, TRBrace => close_dict stack
  | Colon, TColon => inr (stack, Value false)
  | Delim, TComma =>
      match stack with
      | InList _ :: _ => inr (stack, Value false)
      | InDict _ _ :: _ => inr (stack, Key false)
      | [] => inl JSONDecodeError
      end
  | Delim, TRBracket => close_list stack
  | Delim, TRBrace => close_dict stack
  | _, _ => inl JSONDecodeError
  end.

Fixpoint parse (lim : Limits) (stack : list frame) (ex : expect) (ts : list token)
    : res pyval :=
  match ts with
  | [] => match ex with End v => inr v | _ => inl JSONDecodeError end
  | t :: ts' =>
      match parse_step lim stack ex t with
      | inr (stack', ex') => parse lim stack' ex' ts'
      | inl e => inl e
      end
  end.

(** The outermost container being read is a list. *)
Fixpoint list_below (stack : list frame) : bool :=
  match stack with
  | [] => false
  | f :: st =>
      match st with
      | [] => match f with InList _ => true | InDict _ _ => false end
      | _ => list_below st
      end
  end.

(** Reading a text that opened with ['[']: either still inside that
    list, or done with a list as the result. *)
Definition in_list (stack : list frame) (ex : expect) : Prop :=
  match ex with
  | End v => stack = [] /\ exists l, v = PList l
  | _ => list_below stack = true
  end.

(** [json.loads(s)] under the limits [lim]. *)
Definition loads (lim : Limits) (s : string) : res pyval :=
  parse lim [] (Value false) (lex LTop s).

End Json.

(** ** [uuid.uuid4] *)

Module Uuid.

Definition hex_digit (n : N) : ascii :=
  (if n <? 10 then ascii_of_N (48 + n) else ascii_of_N (87 + n))%N.

(** The digits of ['%0kx' % n], for [n < 16^k]. *)
Fixpoint hex (k : nat) (n : N) : list ascii :=
  match k with
  | O => []
  | S k' => hex k' (n / 16)%N ++ [hex_digit (n mod 16)%N]
  end.

(** [h[:8]-h[8:12]-h[12:16]-h[16:20]-h[20:]]. *)
Definition groups (h : list ascii) : list ascii :=
  take 8 h ++ "-"%char :: take 4 (drop 8 h) ++ "-"%char :: take 4 (drop 12 h)
    ++ "-"%char :: take 4 (drop 16 h) ++ "-"%char :: drop 20 h.

(** [str(u)] of a [UUID] with [u.int = n]: the 32 hex digits in groups
    of 8, 4, 4, 4 and 12. *)
Definition str (n : N) : string := string_of_list_ascii (groups (hex 32 n)).

(** [UUID(bytes=b, version=4).int], [random] being the sixteen bytes
    [b] read as a big-endian number. *)
Definition uuid4 (random : N) : N :=
  let i := (random mod 2 ^ 128)%N in
  let i := N.ldiff i (N.shiftl 49152 48) in
  let i := N.lor i (N.shiftl 32768 48) in
  let i := N.ldiff i (N.shiftl 61440 64) in
  N.lor i (N.shiftl 4 76).

End Uuid.

(** ** Request bodies (lines 31-45) *)

Module QuizRequest.
Record t : Type := {
  topic : string;
  difficulty : string;
  user_id : string
}.
End QuizRequest.

Module QuizSubmission.
Record t : Type := {
  user_id : string;
  quiz_id : string;
  responses : gmap string string
}.
End QuizSubmission.

(** ** The world the handlers run in *)

(** A vector of the Pinecone index: the index is used as a document
    store, the document being the metadata. *)
Record Vector : Type := {
  values : list Z;
  metadata : pyval
}.

Record World : Type := {
  index : gmap string Vector;
  uuid_calls : nat
}.

(** The module-level objects of [main.py] the handlers use, and the
    interpreter they run on: the prompt object through its [format]
    method, the language model through its call, the sixteen random
    bytes behind the n-th [uuid4()], and the limits [json.loads] runs
    under. *)
Record App : Type := {
  quiz_prompt_format : Formatter.kwargs -> res string;
  watsonx_llm : string -> res string;
  os_urandom : nat -> N;
  limits : Json.Limits
}.

(** State and exceptions. *)
Definition M (A : Type) : Type := World -> res A * World.

Definition ret {A} (a : A) : M A := λ w, (inr a, w).
Definition raise {A} (e : exn) : M A := λ w, (inl e, w).
Definition bind {A B} (c : M A) (k : A -> M B) : M B :=
  λ w, match c w with
       | (inr a, w') => k a w'
       | (inl e, w') => (inl e, w')
       end.
Definition lift {A} (r : res A) : M A := λ w, (r, w).

(** [try: c except Exception as e: h e]. *)
Definition try_except {A} (c : M A) (h : exn -> M A) : M A :=
  λ w, match c w with
       | (inr a, w') => (inr a, w')
       | (inl e, w') => h e w'
       end.

Notation "x <- c ;; k" := (bind c (λ x, k))
  (at level 62, c at next level, right associativity, only parsing).
Notation "c ;;; k" := (bind c (λ _, k))
  (at level 62, right associativity, only parsing).
Notation "'let?' x := c 'in' k" :=
  (match c with inl e => inl e | inr x => k end)
  (at level 62, x name, c at next level, right associativity, only parsing).

(** *** The document store

    The index is an external service; it is taken as the keyed document
    store the handlers use it as.  [upsert] writes a document under an
    id, [fetch] returns the found ones among the ids asked for, [update]
    with [set_metadata] sets the given metadata fields of an existing
    document and leaves its other fields. *)

Module Index.

Definition upsert (vectors : list (string * list Z * pyval)) : M unit :=
  λ w, (inr (),
        {| index := foldl (λ ix '(id, vs, md), <[id := {| values := vs; metadata := md |}]> ix)
                      (index w) vectors;
           uuid_calls := uuid_calls w |}).

(** The ['vectors'] entry of the response. *)
Definition fetch (ids : list string) : M (gmap string Vector) :=
  λ w, (inr (foldr (λ id found,
               match index w !! id with
               | Some v => <[id := v]> found
               | None => found
               end) ∅ ids), w).

Definition merge (old new : pyval) : pyval :=
  match old, new with
  | PDict o, PDict n => PDict (n ∪ o)
  | _, _ => new
  end.

Definition update (id : string) (set_metadata : pyval) : M unit :=
  λ w, match index w !! id with
       | Some v =>
           (inr (),
            {| index := <[id := {| values := values v;
                                   metadata := merge (metadata v) set_metadata |}]> (index w);
               uuid_calls := uuid_calls w |})
       | None => (inl PineconeException, w)
       end.

End Index.

(** What the [n]-th call of [str(uuid.uuid4())] returns. *)
Definition nth_uuid (app : App) (n : nat) : string :=
  Uuid.str (Uuid.uuid4 (os_urandom app n)).

(** [str(uuid.uuid4())]. *)
Definition uuid4_str (app : App) : M string :=
  λ w, (inr (nth_uuid app (uuid_calls w)),
        {| index := index w; uuid_calls := S (uuid_calls w) |}).

(** ** [generate_quiz] (lines 53-83) *)

(** Lines 65-66, the body run for each item of [questions]. *)
Fixpoint assign_ids (app : App) (qs : list pyval) : M (list pyval) :=
  match qs with
  | [] => ret []
  | q :: qs' =>
      id <- uuid4_str app ;;
      q' <- lift (Py.setitem q "id" (PStr id)) ;;
      rest <- assign_ids app qs' ;;
      ret (q' :: rest)
  end.

(** The object [questions] after its items were assigned to in place. *)
Definition with_items (o : pyval) (items : list pyval) : pyval :=
  match o with
  | PList _ => PList items
  | _ => o
  end.

(** Line 79. *)
Fixpoint redact (qs : list pyval) : res (list pyval) :=
  match qs with
  | [] => inr []
  | q :: qs' =>
      let? c := Py.unpack_with q "correct_answer" PNone in
      let? rest := redact qs' in
      inr (c :: rest)
  end.

(** Lines 54-83.  Everything raised inside the [try] is caught at line
    82 and raised again as a 500. *)
Definition generate_quiz (app : App) (request : QuizRequest.t) : M pyval :=
  try_except
    (prompt <- lift (quiz_prompt_format app
                       [("topic", QuizRequest.topic request);
                        ("difficulty", QuizRequest.difficulty request)]%string) ;;
     response <- lift (watsonx_llm app prompt) ;;
     let json_start := Str.find response "[" in
     let json_end := Str.rfind response "]" + 1 in
     questions <- lift (Json.loads (limits app)
                          (Str.slice response json_start json_end)) ;;
     items <- lift (Py.iter questions) ;;
     items <- assign_ids app items ;;
     let questions := with_items questions items in
     quiz_id <- uuid4_str app ;;
     let metadata :=
       PDict {[ "user_id" := PStr (QuizRequest.user_id request);
                "topic" := PStr (QuizRequest.topic request);
                "difficulty" := PStr (QuizRequest.difficulty request);
                "questions" := questions ]} in
     Index.upsert [(quiz_id, replicate 768 0, metadata)] ;;;
     items <- lift (Py.iter questions) ;;
     client_questions <- lift (redact items) ;;
     ret (PDict {[ "quiz_id" := PStr quiz_id;
                   "questions" := PList client_questions ]}))
    (λ e, raise (HTTPException 500 (StrOf e))).

(** Lines 60-62: the text handed to [json.loads].  Indices count bytes
    here and code points in Python; the slice is the same text, the two
    brackets being ASCII, and a start of [-1] only leaves a slice that
    is empty or the last character [']']. *)
Definition payload (response : string) : string :=
  Str.slice response (Str.find response "[") (Str.rfind response "]" + 1).

(** Lines 70-75: the metadata stored with a quiz. *)
Definition quiz_metadata (request : QuizRequest.t) (questions : pyval) : pyval :=
  PDict {[ "user_id" := PStr (QuizRequest.user_id request);
           "topic" := PStr (QuizRequest.topic request);
           "difficulty" := PStr (QuizRequest.difficulty request);
           "questions" := questions ]}.

(** The keyword arguments of line 56. *)
Definition prompt_kwargs (request : QuizRequest.t) : Formatter.kwargs :=
  [("topic", QuizRequest.topic request);
   ("difficulty", QuizRequest.difficulty request)]%string.

(** Lines 60-80: what the handler does with the text [response] the
    model returned, inside the [try]. *)
Definition quiz_from_response (app : App) (request : QuizRequest.t)
    (response : string) : M pyval :=
  let json_start := Str.find response "[" in
  let json_end := Str.rfind response "]" + 1 in
  questions <- lift (Json.loads (limits app)
                       (Str.slice response json_start json_end)) ;;
  items <- lift (Py.iter questions) ;;
  items <- assign_ids app items ;;
  let questions := with_items questions items in
  quiz_id <- uuid4_str app ;;
  let metadata :=
    PDict {[ "user_id" := PStr (QuizRequest.user_id request);
             "topic" := PStr (QuizRequest.topic request);
             "difficulty" := PStr (QuizRequest.difficulty request);
             "questions" := questions ]} in
  Index.upsert [(quiz_id, replicate 768 0, metadata)] ;;;
  items <- lift (Py.iter questions) ;;
  client_questions <- lift (redact items) ;;
  ret (PDict {[ "quiz_id" := PStr quiz_id;
                "questions" := PList client_questions ]}).

(** ** [submit_quiz] (lines 85-110) *)

(** Lines 97-100. *)
Fixpoint tally (responses : gmap string string) (qs : list pyval) (score : Z) : res Z :=
  match qs with
  | [] => inr score
  | q :: qs' =>
      let? id := Py.getitem q "id" in
      let? answer := Py.get responses id in
      let? correct := Py.getitem q "correct_answer" in
      tally responses qs' (if Py.eq answer correct then score + 1 else score)
  end.

(** Lines 86-110.  The [raise] of line 91 stands inside the [try], so
    the [except Exception] of line 109 catches it like anything else. *)
Definition submit_quiz (app : App) (submission : QuizSubmission.t) : M pyval :=
  try_except
    (let quiz_id := QuizSubmission.quiz_id submission in
     vectors <- Index.fetch [quiz_id] ;;
     if bool_decide (vectors = ∅)
     then raise (HTTPException 404 (Text "Quiz not found"))
     else
       vector <- lift (match vectors !! quiz_id with
                       | Some v => inr v
                       | None => inl (KeyError quiz_id)
                       end) ;;
       let metadata := metadata vector in
       questions <- lift (Py.getitem metadata "questions") ;;
       items <- lift (Py.iter questions) ;;
       score <- lift (tally (QuizSubmission.responses submission) items 0) ;;
       metadata <- lift (Py.setitem metadata "score" (PInt score)) ;;
       metadata <- lift (Py.setitem metadata "completed" (PBool true)) ;;
       Index.update quiz_id metadata ;;;
       total <- lift (Py.len questions) ;;
       ret (PDict {[ "score" := PInt score; "total" := PInt total ]}))
    (λ e, raise (HTTPException 500 (StrOf e))).

(** *** The score as a count

    The answer a submission gives to a question, the answer stored for
    it, and the two ways a question can count. *)

Definition submitted (responses : gmap string string) (q : pyval) : option string :=
  match Py.getitem q "id" with
  | inr (PStr id) => responses !! id
  | _ => None
  end.

Definition stored_answer (q : pyval) : option pyval :=
  match Py.getitem q "correct_answer" with
  | inr c => Some c
  | inl _ => None
  end.

(** An answer was submitted and is, character for character, the
    stored correct answer. *)
Definition answered_right (responses : gmap string string) (q : pyval) : bool :=
  match submitted responses q, stored_answer q with
  | Some a, Some (PStr c) => String.eqb a c
  | _, _ => false
  end.

(** No answer was submitted and the stored correct answer is [None]. *)
Definition unanswered_null (responses : gmap string string) (q : pyval) : bool :=
  match submitted responses q, stored_answer q with
  | None, Some PNone => true
  | _, _ => false
  end.

Definition count (f : pyval -> bool) (qs : list pyval) : Z :=
  Z.of_nat (length (List.filter f qs)).

(** The quiz [quiz_id] as stored in [w]: its metadata and the questions
    [submit_quiz] goes through. *)
Definition stored_quiz (w : World) (quiz_id : string) (md : pyval)
    (items : list pyval) : Prop :=
  exists v questions,
    index w !! quiz_id = Some v /\ metadata v = md /\
    Py.getitem md "questions" = inr questions /\
    Py.iter questions = inr items.

(** The [uuid4()] calls number [first] to [first + n - 1] return
    different UUIDs. *)
Definition distinct_uuids (app : App) (first n : nat) : Prop :=
  forall i j : nat, (first <= i < j)%nat -> (j < first + n)%nat ->
    Uuid.uuid4 (os_urandom app i) <> Uuid.uuid4 (os_urandom app j).

(** The questions the model's text holds for a request: the items of
    the JSON array between the first ['['] and the last [']']. *)
Definition model_questions (app : App) (request : QuizRequest.t)
    (parsed : list pyval) : Prop :=
  exists prompt response,
    quiz_prompt_format app (prompt_kwargs request) = inr prompt /\
    watsonx_llm app prompt = inr response /\
    Json.loads (limits app) (payload response) = inr (PList parsed).

(** ** The program as written *)

Section Program.

Variable render_field :
  Formatter.kwargs -> string -> string -> option ascii -> string -> res string.
Variable llm : string -> res string.
Variable urandom : nat -> N.
Variable lim : Json.Limits.

(** The module of [main.py]: the prompt object is [quiz_prompt]. *)
Definition main : App := {|
  quiz_prompt_format := PromptTemplate_format render_field quiz_prompt;
  watsonx_llm := llm;
  os_urandom := urandom;
  limits := lim
|}.

End Program.

(** The prompt [quiz_prompt] with the braces of its JSON example doubled,
    so that they are literal text. *)
Definition escaped_prompt : PromptTemplate := {|
  input_variables := ["topic"; "difficulty"]%string;
  template := "Generate 5 {difficulty} multiple-choice questions about {topic}. Format as JSON: [{{'id':'uuid','question':'text','options':['a','b','c','d'],'correct_answer':'a'}}]"
|}.

(** ** Concrete objects for examples *)

Definition no_render_field
    : Formatter.kwargs -> string -> string -> option ascii -> string -> res string :=
  λ _ _ _ _ _, inl ValueError.

(** An interpreter with the default limit on the digits of an integer
    and room for 900 nested containers. *)
Definition default_limits : Json.Limits := {|
  Json.int_max_str_digits := 4300;
  Json.max_nesting := 900
|}.

(** An application whose prompt object is [escaped_prompt] and whose
    language model answers every prompt with [text]. *)
Definition app_with (text : string) : App := {|
  quiz_prompt_format := PromptTemplate_format no_render_field escaped_prompt;
  watsonx_llm := λ _, inr text;
  os_urandom := λ n, N.of_nat n;
  limits := default_limits
|}.

(** [s] with every apostrophe replaced by a double quote, to write JSON
    texts. *)
Fixpoint dq (s : string) : string :=
  match s with
  | EmptyString => EmptyString
  | String c s' => String (if Ascii.eqb c "'" then "034"%char else c) (dq s')
  end.

Definition one_question_text : string :=
  dq "Here you go: [{'id':'1','question':'2+2?','options':['3','4'],'correct_answer':'4'}] bye".

Definition app1 : App := app_with one_question_text.

Definition empty_world : World := {| index := ∅; uuid_calls := 0 |}.

Definition req1 : QuizRequest.t := {|
  QuizRequest.topic := "Photosynthesis";
  QuizRequest.difficulty := "easy";
  QuizRequest.user_id := "u1"
|}.

(** The world after one quiz was generated from [one_question_text]:
    its question has the id of the first [uuid4()] call, the quiz that
    of the second. *)
Definition world1 : World := snd (generate_quiz app1 req1 empty_world).

Definition question1_id : string := "00000000-0000-4000-8000-000000000000".
Definition quiz1_id : string := "00000000-0000-4000-8000-000000000001".

Definition submission1 : QuizSubmission.t := {|
  QuizSubmission.user_id := "u1";
  QuizSubmission.quiz_id := quiz1_id;
  QuizSubmission.responses := {[ question1_id := "4"%string ]}
|}.

(** A model text whose only question has [null] for its answer, the
    world after a quiz was generated from it, and a submission that
    answers nothing. *)
Definition null_answer_text : string :=
  dq "[{'question':'2+2?','options':['3','4'],'correct_answer':null}]".

Definition world_null : World :=
  snd (generate_quiz (app_with null_answer_text) req1 empty_world).

Definition empty_submission : QuizSubmission.t := {|
  QuizSubmission.user_id := "u1";
  QuizSubmission.quiz_id := quiz1_id;
  QuizSubmission.responses := ∅
|}.

(** The question of [world_null] as stored. *)
Definition null_question : pyval :=
  PDict {[ "id" := PStr question1_id;
           "question" := PStr "2+2?";
           "options" := PList [PStr "3"; PStr "4"];
           "correct_answer" := PNone ]}.

(** The question of [world1] as returned to the client. *)
Definition client_question1 : pyval :=
  PDict {[ "id" := PStr question1_id;
           "question" := PStr "2+2?";
           "options" := PList [PStr "3"; PStr "4"];
           "correct_answer" := PNone ]}.

(** What [generate_quiz] returns on the way to [world1]. *)
Definition response1 : pyval :=
  PDict {[ "quiz_id" := PStr quiz1_id; "questions" := PList [client_question1] ]}.

(** [submission1] on [world1]: what is returned, and the world after. *)
Definition score_response1 : pyval :=
  PDict {[ "score" := PInt 1; "total" := PInt 1 ]}.

Definition world2 : World := snd (submit_quiz app1 submission1 world1).

(** A model text without any bracket. *)
Definition refusal_text : string := "I cannot help with that.".

(** A model text with both brackets and no JSON between them. *)
Definition malformed_text : string := "Options [a, b] are listed [below".


(** The question of [world1] as stored. *)
Definition stored_question1 : pyval :=
  PDict {[ "id" := PStr question1_id;
           "question" := PStr "2+2?";
           "options" := PList [PStr "3"; PStr "4"];
           "correct_answer" := PStr "4" ]}.

(** A model text with two questions, the world after a quiz was
    generated from it, the response on the way, and a submission that
    answers the first question right and the second not at all. *)
Definition two_question_text : string :=
  dq "[{'id':'x','question':'2+2?','correct_answer':'4'},{'id':'x','question':'3+3?','correct_answer':'6'}]".

Definition app2 : App := app_with two_question_text.

Definition parsed_two : list pyval :=
  [PDict {[ "id" := PStr "x"; "question" := PStr "2+2?"; "correct_answer" := PStr "4" ]};
   PDict {[ "id" := PStr "x"; "question" := PStr "3+3?"; "correct_answer" := PStr "6" ]}].

Definition stored_two : list pyval :=
  [PDict {[ "id" := PStr "00000000-0000-4000-8000-000000000000";
            "question" := PStr "2+2?"; "correct_answer" := PStr "4" ]};
   PDict {[ "id" := PStr "00000000-0000-4000-8000-000000000001";
            "question" := PStr "3+3?"; "correct_answer" := PStr "6" ]}].

Definition client_two : list pyval :=
  [PDict {[ "id" := PStr "00000000-0000-4000-8000-000000000000";
            "question" := PStr "2+2?"; "correct_answer" := PNone ]};
   PDict {[ "id" := PStr "00000000-0000-4000-8000-000000000001";
            "question" := PStr "3+3?"; "correct_answer" := PNone ]}].

Definition quiz_two_id : string := "00000000-0000-4000-8000-000000000002".

Definition response_two : pyval :=
  PDict {[ "quiz_id" := PStr quiz_two_id; "questions" := PList client_two ]}.

Definition world_two : World := snd (generate_quiz app2 req1 empty_world).

Definition submission_two : QuizSubmission.t := {|
  QuizSubmission.user_id := "u1";
  QuizSubmission.quiz_id := quiz_two_id;
  QuizSubmission.responses := {[ "00000000-0000-4000-8000-000000000000"%string := "4"%string ]}
|}.

(** The prompt [escaped_prompt] renders for [req1], a language model
    that refuses this prompt and answers every other one with
    [one_question_text], and a request with another prompt. *)
Definition prompt1 : string :=
  "Generate 5 easy multiple-choice questions about Photosynthesis. Format as JSON: [{'id':'uuid','question':'text','options':['a','b','c','d'],'correct_answer':'a'}]".

Definition app_mixed : App := {|
  quiz_prompt_format := PromptTemplate_format no_render_field escaped_prompt;
  watsonx_llm := λ prompt,
    inr (if String.eqb prompt prompt1 then refusal_text else one_question_text);
  os_urandom := λ n, N.of_nat n;
  limits := default_limits
|}.

Definition req2 : QuizRequest.t := {|
  QuizRequest.topic := "Algebra";
  QuizRequest.difficulty := "hard";
  QuizRequest.user_id := "u2"
|}.

(** An interpreter set to 700 digits, with room for three nested
    containers, and an application that runs on it. *)
Definition tight_limits : Json.Limits := {|
  Json.int_max_str_digits := 700;
  Json.max_nesting := 3
|}.

Definition app_tight (text : string) : App := {|
  quiz_prompt_format := PromptTemplate_format no_render_field escaped_prompt;
  watsonx_llm := λ _, inr text;
  os_urandom := λ n, N.of_nat n;
  limits := tight_limits
|}.

(** [n] times the digit 7, and [inner] inside [n] pairs of brackets. *)
Fixpoint sevens (n : nat) : string :=
  match n with
  | O => EmptyString
  | S n' => String "7" (sevens n')
  end.

Fixpoint nested (n : nat) (inner : string) : string :=
  match n with
  | O => inner
  | S n' => String "[" (nested n' inner +:+ "]")
  end.

(** ** The claims read on the handlers *)



(** A stored question typed as the [Question] model of lines 36-40
    declares its answer: ["correct_answer"] is a [str]. *)
Definition answer_is_str (q : pyval) : Prop :=
  exists c, Py.getitem q "correct_answer" = inr (PStr c).

(** A model text the handler cannot use: a bracket is missing, or what
    lies between the first ['['] and the last [']'] is not a JSON array. *)
Definition unusable (lim : Json.Limits) (text : string) : Prop :=
  Str.contains text "[" = false \/ Str.contains text "]" = false \/
  forall l, Json.loads lim (payload text) <> inr (PList l).

(** ** Further notions for the handlers *)

(** The world after [submit_quiz] scored the quiz [quiz_id], stored as
    the vector [v] with the metadata entries [d] (lines 103-105). *)
Definition scored_world (w : World) (quiz_id : string) (v : Vector)
    (d : gmap string pyval) (score : Z) : World :=
  {| index := <[quiz_id :=
                 {| values := values v;
                    metadata := PDict (<["completed" := PBool true]>
                                         (<["score" := PInt score]> d)) |}]>
               (index w);
     uuid_calls := uuid_calls w |}.

(** Two [responses] give the same answer to every question of [items]. *)
Definition agree_on (items : list pyval) (r1 r2 : gmap string string) : Prop :=
  forall q id, q ∈ items -> Py.getitem q "id" = inr (PStr id) -> r1 !! id = r2 !! id.

(** Further concrete submissions: [submission1] sent by someone else
    with an answer to a question that does not exist, and a second quiz
    generated after the first. *)
Definition submission1_extra : QuizSubmission.t := {|
  QuizSubmission.user_id := "u2";
  QuizSubmission.quiz_id := quiz1_id;
  QuizSubmission.responses := {[ question1_id := "4"%string; "no-such-question"%string := "3"%string ]}
|}.

Definition world3 : World := snd (generate_quiz app1 req1 world1).

Definition question2_id : string := "00000000-0000-4000-8000-000000000002".
Definition quiz2_id : string := "00000000-0000-4000-8000-000000000003".

Definition submission2 : QuizSubmission.t := {|
  QuizSubmission.user_id := "u1";
  QuizSubmission.quiz_id := quiz2_id;
  QuizSubmission.responses := {[ question2_id := "3"%string ]}
|}.

(** A Python object is a [dict]. *)
Definition is_dict (q : pyval) : Prop := exists d, q = PDict d.

(** The question [q] once line 66 gave it the id of the [n]-th
    [uuid4()] call. *)
Definition stamp (app : App) (n : nat) (q : pyval) : pyval :=
  match q with
  | PDict d => PDict (<["id" := PStr (nth_uuid app n)]> d)
  | _ => q
  end.

(** The question [q] as line 79 returns it. *)
Definition redacted (q : pyval) : pyval :=
  match q with
  | PDict d => PDict (<["correct_answer" := PNone]> d)
  | _ => q
  end.

(** The world after [generate_quiz] stored the questions [parsed]
    (lines 65-76): one [uuid4()] call per question, one for the quiz. *)
Definition generated_world (app : App) (request : QuizRequest.t) (w : World)
    (parsed : list pyval) : World :=
  {| index := <[nth_uuid app (uuid_calls w + length parsed) :=
                 {| values := replicate 768 0;
                    metadata := quiz_metadata request
                                  (PList (imap (λ k, stamp app (uuid_calls w + k)) parsed)) |}]>
               (index w);
     uuid_calls := S (uuid_calls w + length parsed) |}.

(** The response of [generate_quiz] for the questions [parsed]. *)
Definition generated_response (app : App) (w : World) (parsed : list pyval) : pyval :=
  PDict {[ "quiz_id" := PStr (nth_uuid app (uuid_calls w + length parsed));
           "questions" :=
             PList (imap (λ k q, redacted (stamp app (uuid_calls w + k) q)) parsed) ]}.

(** A Python value that can be a key of a [dict] lookup. *)
Definition hashable (v : pyval) : bool :=
  match v with
  | PList _ | PDict _ => false
  | _ => true
  end.

(** A stored question line 99 can score: it has an ["id"] that can be
    looked up and a ["correct_answer"]. *)
Definition scorable (q : pyval) : Prop :=
  exists id c,
    Py.getitem q "id" = inr id /\ hashable id = true /\
    Py.getitem q "correct_answer" = inr c.

(** A stored question to which [responses] gives the stored answer. *)
Definition answered_as_stored (responses : gmap string string) (q : pyval) : Prop :=
  exists id c,
    Py.getitem q "id" = inr (PStr id) /\
    Py.getitem q "correct_answer" = inr (PStr c) /\
    responses !! id = Some c.

(** A model text with two questions, the second without an answer. *)
Definition unanswerable_text : string :=
  dq "[{'question':'2+2?','correct_answer':'4'},{'question':'3+3?'}]".

(** The question of [one_question_text] as parsed, with the id the
    model gave it. *)
Definition parsed_question1 : pyval :=
  PDict {[ "id" := PStr "1";
           "question" := PStr "2+2?";
           "options" := PList [PStr "3"; PStr "4"];
           "correct_answer" := PStr "4" ]}.

(** The shape of what the handlers keep in the index: under every id a
    metadata [dict] with the requester's [user_id], [topic] and
    [difficulty] as [str] and, under ["questions"], a list of [dict]s
    that each have a [str] under ["id"]. *)
Definition question_ok (q : pyval) : Prop :=
  exists d id, q = PDict d /\ d !! "id"%string = Some (PStr id).

Definition record_ok (v : Vector) : Prop :=
  exists d items user topic difficulty,
    metadata v = PDict d /\
    d !! "questions"%string = Some (PList items) /\ Forall question_ok items /\
    d !! "user_id"%string = Some (PStr user) /\
    d !! "topic"%string = Some (PStr topic) /\
    d !! "difficulty"%string = Some (PStr difficulty).

Definition store_ok (w : World) : Prop :=
  forall id v, index w !! id = Some v -> record_ok v.

(** * Properties *)

(** ** Python's slices and UUID texts on examples *)

Example slice_neg_start : Str.slice "ab]" (-1) 3 = "]"%string.
Proof. reflexivity. Qed.

Example slice_neg_empty : Str.slice "a]b" (-1) 2 = EmptyString.
Proof. reflexivity. Qed.

Example uuid4_zero :
  Uuid.str (Uuid.uuid4 0) = "00000000-0000-4000-8000-000000000000"%string.
Proof. reflexivity. Qed.

(** ** The formatter and the JSON decoder on examples

    Each line is what Python 3.11 answers on the same input. *)

Example vformat_examples :
  let fmt t := Formatter.vformat no_render_field t [("topic", "T")]%string in
  fmt "{{{topic}}}" = inr "{T}"%string /\
  fmt "{}" = inl IndexError /\
  fmt "{0}" = inl IndexError /\
  fmt "{99999999999999999999}" = inl ValueError /\
  fmt "}" = inl ValueError /\
  fmt "{topic" = inl ValueError /\
  fmt "{topic}}" = inl ValueError /\
  fmt "{to{pic}" = inl ValueError /\
  fmt "a{topic!}" = inl ValueError /\
  fmt "{x[}]}" = inl (KeyError "x") /\
  fmt "{.x}" = inl (KeyError EmptyString).
Proof. repeat split. Qed.

Example loads_examples :
  let loads := Json.loads default_limits in
  loads EmptyString = inl JSONDecodeError /\
  loads "]" = inl JSONDecodeError /\
  loads "[" = inl JSONDecodeError /\
  loads "[1,]" = inl JSONDecodeError /\
  loads "[01]" = inl JSONDecodeError /\
  loads "[1.e5]" = inl JSONDecodeError /\
  loads "[-]" = inl JSONDecodeError /\
  loads "[1 2]" = inl JSONDecodeError /\
  loads "[tru]" = inl JSONDecodeError /\
  loads "[1]]" = inl JSONDecodeError /\
  loads (dq "['\x']") = inl JSONDecodeError /\
  loads " [ ] " = inr (PList []) /\
  loads "[[]]" = inr (PList [PList []]) /\
  loads "[{}]" = inr (PList [PDict ∅]) /\
  loads "[1.5e3, -0, 10]" = inr (PList [PFloat "1.5e3"; PInt 0; PInt 10]) /\
  loads "[NaN, -Infinity]" = inr (PList [PFloat "NaN"; PFloat "-Infinity"]) /\
  loads (dq "[{'a':1,'a':2}]") = inr (PList [PDict {[ "a" := PInt 2 ]}]) /\
  loads (dq "{'a':[{'b':null}]}")
    = inr (PDict {[ "a" := PList [PDict {[ "b" := PNone ]}] ]}) /\
  loads (dq "['\u00e9\ud83d\ude00']")
    = inr (PList [PStr (String "195" (String "169" (String "240" (String "159"
                         (String "152" (String "128" EmptyString))))))]).
Proof. repeat split. Qed.

(** The limits: an integer of more digits than allowed raises
    [ValueError] where a value is expected, also when what follows is
    malformed, and not where the text is malformed before it; a
    container opened with [max_nesting] containers open raises
    [RecursionError]. *)
Example loads_limits :
  let loads := Json.loads tight_limits in
  let unlimited := {| Json.int_max_str_digits := 0; Json.max_nesting := 3 |} in
  loads ("[" +:+ sevens 701 +:+ "]") = inl ValueError /\
  loads ("[-" +:+ sevens 701 +:+ "]") = inl ValueError /\
  loads ("[" +:+ sevens 701 +:+ ".]") = inl ValueError /\
  loads ("[" +:+ sevens 701 +:+ "e+]") = inl ValueError /\
  loads ("[" +:+ sevens 701 +:+ ".5]") = inr (PList [PFloat (sevens 701 +:+ ".5")]) /\
  loads ("[1 " +:+ sevens 701 +:+ "]") = inl JSONDecodeError /\
  (exists z, loads ("[-" +:+ sevens 700 +:+ "]") = inr (PList [PInt z])) /\
  (exists z, Json.loads unlimited ("[" +:+ sevens 701 +:+ "]") = inr (PList [PInt z])) /\
  loads "[[[]]]" = inr (PList [PList [PList []]]) /\
  loads "[[[[]]]]" = inl RecursionError /\
  loads (dq "[{'a':[{}]}]") = inl RecursionError /\
  loads "[[[[" = inl RecursionError /\
  loads "[[[}[" = inl JSONDecodeError /\
  loads (nested 4 EmptyString) = inl RecursionError.
Proof.
  cbv zeta.
  repeat match goal with
  | |- _ /\ _ => split
  | |- _ = _ => vm_compute; reflexivity
  | |- exists _, _ => eexists; vm_compute; reflexivity
  end.
Qed.

(** With the default limit of 4300 digits. *)
Example loads_default_limit :
  Json.loads default_limits ("[" +:+ sevens 4301 +:+ "]") = inl ValueError.
Proof. vm_compute. reflexivity. Qed.

(** ** The monad *)

Lemma bind_inr {A B} (c : M A) (k : A -> M B) w b w' :
  bind c k w = (inr b, w') ->
  exists a w1, c w = (inr a, w1) /\ k a w1 = (inr b, w').
Proof.
  unfold bind. destruct (c w) as [[e|a] w1]; [discriminate|]. eauto.
Qed.

Lemma bind_inl {A B} (c : M A) (k : A -> M B) w e w' :
  bind c k w = (inl e, w') ->
  c w = (inl e, w') \/ exists a w1, c w = (inr a, w1) /\ k a w1 = (inl e, w').
Proof.
  unfold bind. destruct (c w) as [[e1|a] w1]; intros H.
  - injection H as -> ->. by left.
  - right. by exists a, w1.
Qed.

Lemma lift_inr {A} (r : res A) w a w' :
  lift r w = (inr a, w') -> r = inr a /\ w' = w.
Proof. unfold lift. intros [= -> ->]. done. Qed.

Lemma lift_inl {A} (r : res A) w e w' :
  lift r w = (inl e, w') -> r = inl e /\ w' = w.
Proof. unfold lift. intros [= -> ->]. done. Qed.

Lemma try_except_inr {A} (c : M A) (f : exn -> exn) w a w' :
  try_except c (λ e, raise (f e)) w = (inr a, w') -> c w = (inr a, w').
Proof.
  unfold try_except, raise. destruct (c w) as [[e|a1] w1]; [discriminate|]. done.
Qed.

Lemma try_except_inl {A} (c : M A) (f : exn -> exn) w e w' :
  try_except c (λ e, raise (f e)) w = (inl e, w') ->
  exists e0, c w = (inl e0, w') /\ e = f e0.
Proof.
  unfold try_except, raise. destruct (c w) as [[e1|a1] w1]; [|discriminate].
  intros [= <- <-]. eauto.
Qed.

(** Unpacks a successful run of a sequence of steps. *)
Ltac run_inr H :=
  repeat match type of H with
  | bind _ _ _ = (inr _, _) =>
      let a := fresh "a" in let w1 := fresh "w" in
      let H1 := fresh "Hstep" in
      apply bind_inr in H; destruct H as (a & w1 & H1 & H);
      try (apply lift_inr in H1; destruct H1 as [H1 ->])
  end.


(** ** Dictionaries *)


Lemma getitem_setitem_ne o k k' v o' :
  Py.setitem o k v = inr o' -> k <> k' -> Py.getitem o' k' = Py.getitem o k'.
Proof.
  destruct o; simpl; try discriminate. intros [= <-] Hne. simpl.
  by rewrite lookup_insert_ne.
Qed.

(** ** The loop of lines 65-66 *)

Lemma assign_ids_inr app qs : forall w qs' w',
  assign_ids app qs w = (inr qs', w') ->
  index w' = index w /\
  uuid_calls w' = (uuid_calls w + length qs)%nat /\
  length qs' = length qs /\
  forall (k : nat) q, qs !! k = Some q ->
    exists q', qs' !! k = Some q' /\
      Py.setitem q "id" (PStr (nth_uuid app (uuid_calls w + k))) = inr q'.
Proof.
  induction qs as [|q qs IH]; intros w qs' w' H; simpl in H.
  - injection H as <- <-. repeat split; [simpl; lia|]. intros k q Hk. done.
  - run_inr H. injection Hstep as <-.
    unfold ret in H. injection H as <- <-.
    apply IH in Hstep1 as (Hix & Hn & Hlen & Hall). simpl in *.
    repeat split; [done|lia|lia|].
    intros [|k] q0 Hk; simpl in *.
    + injection Hk as <-. exists a0. split; [done|].
      by rewrite Nat.add_0_r.
    + destruct (Hall k q0 Hk) as (q' & Hq' & Hset). exists q'. split; [done|].
      by replace (uuid_calls w + S k)%nat with (S (uuid_calls w) + k)%nat by lia.
Qed.

Lemma assign_ids_dicts app qs w qs' w' :
  assign_ids app qs w = (inr qs', w') ->
  Forall (λ q, exists d, q = PDict d) qs /\ Forall (λ q, exists d, q = PDict d) qs'.
Proof.
  intros H. pose proof (assign_ids_inr _ _ _ _ _ H) as (_ & _ & Hlen & Hall).
  split; apply Forall_lookup_2; intros k q Hk.
  - destruct (Hall k q Hk) as (q' & _ & Hset).
    destruct q; try discriminate. eauto.
  - assert (is_Some (qs !! k)) as [q0 Hq0].
    { apply lookup_lt_is_Some. rewrite <- Hlen. by eapply lookup_lt_Some. }
    destruct (Hall k q0 Hq0) as (q' & Hq' & Hset).
    rewrite Hk in Hq'. injection Hq' as <-.
    destruct q0; try discriminate. injection Hset as <-. eauto.
Qed.

(** After the loop, [questions] iterates over the items with their new
    ids: a list was updated in place, and a [str] or [dict] can only have
    passed the loop when empty. *)
Lemma iter_with_items app questions items w items' w' :
  Py.iter questions = inr items ->
  assign_ids app items w = (inr items', w') ->
  Py.iter (with_items questions items') = inr items'.
Proof.
  intros Hiter H.
  destruct (assign_ids_dicts _ _ _ _ _ H) as [Hd _].
  pose proof (assign_ids_inr _ _ _ _ _ H) as (_ & _ & Hlen & _).
  destruct questions; simpl in *; try discriminate; try done;
    injection Hiter as <-.
  - destruct (Py.chars s) as [|c cs]; simpl in *.
    + by destruct items'.
    + apply Forall_cons in Hd as [[d Hd] _]. discriminate.
  - destruct (map_to_list d) as [|[k v] kvs]; simpl in *.
    + by destruct items'.
    + apply Forall_cons in Hd as [[d' Hd] _]. discriminate.
Qed.

(** ** Line 79 *)

Lemma redact_inr qs : forall cs,
  redact qs = inr cs ->
  length cs = length qs /\
  forall (k : nat) q, qs !! k = Some q ->
    exists c, cs !! k = Some c /\ Py.unpack_with q "correct_answer" PNone = inr c.
Proof.
  induction qs as [|q qs IH]; intros cs H; simpl in H.
  - injection H as <-. split; [done|]. intros k q Hk. done.
  - destruct (Py.unpack_with q "correct_answer" PNone) as [e|c] eqn:Hc; [discriminate|].
    destruct (redact qs) as [e|rest] eqn:Hrest; [discriminate|].
    injection H as <-. destruct (IH rest eq_refl) as [Hlen Hall].
    split; [simpl; lia|].
    intros [|k] q0 Hk; simpl in *.
    + injection Hk as <-. eauto.
    + eauto.
Qed.

Lemma redact_dicts qs :
  Forall (λ q, exists d, q = PDict d) qs -> exists cs, redact qs = inr cs.
Proof.
  induction 1 as [|q qs [d ->] _ [cs IH]]; simpl; [eauto|].
  rewrite IH. eauto.
Qed.

(** ** A successful [generate_quiz], step by step *)

Lemma generate_quiz_inr app request w r w' :
  generate_quiz app request w = (inr r, w') ->
  exists prompt response questions items items' client w1,
    quiz_prompt_format app (prompt_kwargs request) = inr prompt /\
    watsonx_llm app prompt = inr response /\
    Json.loads (limits app) (payload response) = inr questions /\
    Py.iter questions = inr items /\
    assign_ids app items w = (inr items', w1) /\
    redact items' = inr client /\
    r = PDict {[ "quiz_id" := PStr (nth_uuid app (uuid_calls w1));
                 "questions" := PList client ]} /\
    w' = {| index := <[nth_uuid app (uuid_calls w1) :=
                         {| values := replicate 768 0;
                            metadata := quiz_metadata request (with_items questions items') |}]>
                       (index w1);
            uuid_calls := S (uuid_calls w1) |}.
Proof.
  intros H. apply try_except_inr in H.
  apply bind_inr in H as (prompt & ? & H1 & H). apply lift_inr in H1 as [H1 ->].
  apply bind_inr in H as (response & ? & H2 & H). apply lift_inr in H2 as [H2 ->].
  apply bind_inr in H as (questions & ? & H3 & H). apply lift_inr in H3 as [H3 ->].
  apply bind_inr in H as (items & ? & H4 & H). apply lift_inr in H4 as [H4 ->].
  apply bind_inr in H as (items' & w1 & H5 & H).
  apply bind_inr in H as (quiz_id & w2 & H6 & H).
  unfold uuid4_str in H6. injection H6 as <- <-.
  apply bind_inr in H as ([] & w3 & H7 & H).
  unfold Index.upsert in H7. simpl in H7. injection H7 as <-.
  apply bind_inr in H as (items2 & ? & H8 & H). apply lift_inr in H8 as [H8 ->].
  apply bind_inr in H as (client & ? & H9 & H). apply lift_inr in H9 as [H9 ->].
  erewrite iter_with_items in H8 by eassumption. injection H8 as <-.
  unfold ret in H. injection H as <- <-.
  by exists prompt, response, questions, items, items', client, w1.
Qed.

(** ** A failed [generate_quiz] *)

Lemma assign_ids_index app qs : forall w r w',
  assign_ids app qs w = (r, w') -> index w' = index w.
Proof.
  induction qs as [|q qs IH]; intros w r w' H; simpl in H.
  - by injection H as <- <-.
  - unfold bind, uuid4_str, lift in H.
    destruct (Py.setitem q "id" _) as [e|q']; [by injection H as <- <-|].
    destruct (assign_ids app qs _) as [[e|rest] w1] eqn:Hrest;
      apply IH in Hrest; simpl in Hrest.
    + injection H as <- <-. done.
    + unfold ret in H. injection H as <- <-. done.
Qed.

(** Whatever goes wrong is reported as a 500 whose detail is [str(e)],
    and nothing was written to the index: the only write is the last
    step that can fail. *)
Lemma generate_quiz_inl app request w e w' :
  generate_quiz app request w = (inl e, w') ->
  index w' = index w /\ exists e0, e = HTTPException 500 (StrOf e0).
Proof.
  intros H. apply try_except_inl in H as (e0 & H & ->).
  split; [|eauto].
  apply bind_inl in H as [H|(prompt & ? & H1 & H)];
    [by apply lift_inl in H as [_ ->]|apply lift_inr in H1 as [H1 ->]].
  apply bind_inl in H as [H|(response & ? & H2 & H)];
    [by apply lift_inl in H as [_ ->]|apply lift_inr in H2 as [H2 ->]].
  apply bind_inl in H as [H|(questions & ? & H3 & H)];
    [by apply lift_inl in H as [_ ->]|apply lift_inr in H3 as [H3 ->]].
  apply bind_inl in H as [H|(items & ? & H4 & H)];
    [by apply lift_inl in H as [_ ->]|apply lift_inr in H4 as [H4 ->]].
  apply bind_inl in H as [H|(items' & w1 & H5 & H)];
    [by apply assign_ids_index in H|].
  apply bind_inl in H as [H|(quiz_id & w2 & H6 & H)]; [discriminate|].
  unfold uuid4_str in H6. injection H6 as <- <-.
  apply bind_inl in H as [H|([] & w3 & H7 & H)]; [discriminate|].
  unfold Index.upsert in H7. simpl in H7. injection H7 as <-.
  exfalso.
  apply bind_inl in H as [H|(items2 & ? & H8 & H)].
  { apply lift_inl in H as [H _].
    by erewrite iter_with_items in H by eassumption. }
  apply lift_inr in H8 as [H8 ->].
  erewrite iter_with_items in H8 by eassumption. injection H8 as <-.
  apply bind_inl in H as [H|(client & ? & H9 & H)]; [|discriminate].
  apply lift_inl in H as [H _].
  destruct (assign_ids_dicts _ _ _ _ _ H5) as [_ Hd].
  destruct (redact_dicts _ Hd) as [cs Hcs]. congruence.
Qed.

(** ** Finding and slicing *)

Lemma find_from_absent c s : forall i,
  Str.contains s c = false -> Str.find_from c s i = -1.
Proof.
  induction s as [|a s IH]; intros i H; simpl in *; [done|].
  apply orb_false_iff in H as [-> H]. by apply IH.
Qed.

Lemma rfind_from_absent c s : forall i last,
  Str.contains s c = false -> Str.rfind_from c s i last = last.
Proof.
  induction s as [|a s IH]; intros i last H; simpl in *; [done|].
  apply orb_false_iff in H as [-> H]. by apply IH.
Qed.

Lemma rfind_from_found c s : forall i last,
  Str.rfind_from c s i last = last \/
  exists k : nat, (k < String.length s)%nat /\ String.get k s = Some c /\
    Str.rfind_from c s i last = i + Z.of_nat k.
Proof.
  induction s as [|a s IH]; intros i last; simpl; [by left|].
  destruct (IH (i + 1) (if Ascii.eqb a c then i else last))
    as [->|(k & Hlt & Hk & ->)].
  - destruct (Ascii.eqb a c) eqn:E; [|by left].
    apply Ascii.eqb_eq in E as ->. right. exists 0%nat.
    repeat split; [lia|lia].
  - right. exists (S k). repeat split; [lia|done|lia].
Qed.

Lemma substring_none n s : substring n 0 s = EmptyString.
Proof.
  revert s. induction n as [|n IH]; intros [|a s]; simpl; auto.
Qed.

Lemma substring_head n : forall s c m,
  String.get n s = Some c -> exists t, substring n (S m) s = String c t.
Proof.
  induction n as [|n IH]; intros [|a s] c m H; simpl in *; try discriminate.
  - injection H as ->. eauto.
  - eauto.
Qed.

Lemma substring_last n : forall s c,
  String.get n s = Some c -> String.length s = S n ->
  substring n 1 s = String c EmptyString.
Proof.
  induction n as [|n IH]; intros [|a s] c H Hlen; simpl in *; try discriminate.
  - injection H as ->. by rewrite substring_none.
  - apply IH; [done|lia].
Qed.

Lemma adjust_nonneg n i : 0 <= n -> 0 <= Str.adjust n i <= n.
Proof. unfold Str.adjust. destruct (i <? 0) eqn:E; lia. Qed.

Ltac adjust_cases :=
  unfold Str.adjust in *;
  repeat match goal with
  | |- context [?a <? ?b] => destruct (Z.ltb_spec a b)
  | H : context [?a <? ?b] |- _ => destruct (Z.ltb_spec a b)
  end.

Lemma slice_empty s start stop :
  Str.adjust (Z.of_nat (String.length s)) stop
    <= Str.adjust (Z.of_nat (String.length s)) start ->
  Str.slice s start stop = EmptyString.
Proof.
  intros H. unfold Str.slice.
  replace (Z.to_nat (_ - _)) with 0%nat by lia. apply substring_none.
Qed.

(** Without a ['['] or without a [']'] in the response, the payload is
    empty or a lone [']']. *)
Lemma payload_no_bracket response :
  Str.contains response "[" = false \/ Str.contains response "]" = false ->
  payload response = EmptyString \/ payload response = "]"%string.
Proof.
  unfold payload, Str.find, Str.rfind. intros [Hno|Hno].
  - rewrite (find_from_absent _ _ _ Hno).
    destruct (rfind_from_found "]" response 0 (-1)) as [->|(k & Hlt & Hk & ->)].
    + left. apply slice_empty. adjust_cases; lia.
    + destruct (decide (S k = String.length response)) as [Hk1|Hk1].
      * right. unfold Str.slice.
        replace (Z.to_nat (Str.adjust _ (-1))) with k by (adjust_cases; lia).
        replace (Z.to_nat (_ - _)) with 1%nat by (adjust_cases; lia).
        by apply substring_last.
      * left. apply slice_empty. adjust_cases; lia.
  - left. rewrite (rfind_from_absent _ _ _ _ Hno).
    apply slice_empty. adjust_cases; lia.
Qed.

Lemma loads_no_bracket lim response :
  Str.contains response "[" = false \/ Str.contains response "]" = false ->
  Json.loads lim (payload response) = inl JSONDecodeError.
Proof.
  intros H. by destruct (payload_no_bracket _ H) as [->| ->].
Qed.

(** ** What [json.loads] returns for a text that opens with ['['] *)

Lemma reduce_in_list stack v stack' ex' :
  Json.list_below stack = true ->
  Json.reduce stack v = inr (stack', ex') -> Json.in_list stack' ex'.
Proof.
  destruct stack as [|[acc|d [k|]] [|f st]]; simpl; try discriminate;
    intros Hb [= <- <-]; simpl; done.
Qed.

Lemma enter_in_list lim stack f ex stack' ex' :
  Json.list_below stack = true ->
  Json.enter lim stack f ex = inr (stack', ex') ->
  stack' = f :: stack /\ ex' = ex /\ Json.list_below stack' = true.
Proof.
  unfold Json.enter. intros Hb H.
  destruct (length stack <? Json.max_nesting lim)%nat; [|discriminate].
  injection H as <- <-. repeat split. simpl. by destruct stack.
Qed.

Lemma close_list_in_list stack stack' ex' :
  Json.list_below stack = true ->
  Json.close_list stack = inr (stack', ex') -> Json.in_list stack' ex'.
Proof.
  intros Hb H.
  destruct stack as [|[acc|d k] st]; simpl in *; try discriminate.
  destruct st as [|f st]; [injection H as <- <-; simpl; eauto|].
  eapply reduce_in_list; [|eassumption]. done.
Qed.

Lemma close_dict_in_list stack stack' ex' :
  Json.list_below stack = true ->
  Json.close_dict stack = inr (stack', ex') -> Json.in_list stack' ex'.
Proof.
  intros Hb H.
  destruct stack as [|[acc|d [k|]] st]; simpl in *; try discriminate.
  destruct st as [|f st]; [discriminate|].
  eapply reduce_in_list; [|eassumption]. done.
Qed.

Lemma parse_step_in_list lim stack ex t stack' ex' :
  Json.in_list stack ex ->
  Json.parse_step lim stack ex t = inr (stack', ex') -> Json.in_list stack' ex'.
Proof.
  intros Hin H.
  destruct ex as [[]|[]| | |v]; destruct t; simpl in H; try discriminate;
    try (apply (enter_in_list _ _ _ _ _ _ Hin) in H as (_ & -> & H); exact H);
    try (eapply reduce_in_list; [exact Hin|exact H]);
    try (eapply close_list_in_list; [exact Hin|exact H]);
    try (eapply close_dict_in_list; [exact Hin|exact H]);
    try (injection H as <- <-; exact Hin).
  all: try (destruct (Json.exceeds lim lexeme); [discriminate|];
            eapply reduce_in_list; [exact Hin|exact H]).
  all: destruct stack as [|[acc|d [k|]] st]; try discriminate;
    injection H as <- <-; exact Hin.
Qed.

Lemma parse_in_list lim ts : forall stack ex v,
  Json.in_list stack ex -> Json.parse lim stack ex ts = inr v -> exists l, v = PList l.
Proof.
  induction ts as [|t ts IH]; intros stack ex v Hin H; simpl in H.
  - destruct ex; try discriminate. injection H as <-. by destruct Hin.
  - destruct (Json.parse_step lim stack ex t) as [e|[stack' ex']] eqn:E; [discriminate|].
    eapply IH; [|eassumption]. by eapply parse_step_in_list.
Qed.

Lemma loads_bracket lim s v :
  Json.loads lim (String "[" s) = inr v -> exists l, v = PList l.
Proof.
  unfold Json.loads. simpl. unfold Json.enter. simpl.
  destruct (0 <? Json.max_nesting lim)%nat; [|discriminate].
  intros H. by eapply parse_in_list in H.
Qed.

Lemma find_from_present c s : forall i,
  Str.contains s c = true ->
  exists k : nat, String.get k s = Some c /\ Str.find_from c s i = i + Z.of_nat k.
Proof.
  induction s as [|a s IH]; intros i H; simpl in *; [done|].
  destruct (Ascii.eqb a c) eqn:E; simpl in *.
  - apply Ascii.eqb_eq in E as ->. exists 0%nat. split; [done|lia].
  - destruct (IH (i + 1) H) as (k & Hk & ->). exists (S k). split; [done|lia].
Qed.

Lemma get_lt k : forall s c, String.get k s = Some c -> (k < String.length s)%nat.
Proof.
  induction k as [|k IH]; intros [|a s] c H; simpl in *; try discriminate; [lia|].
  apply IH in H. lia.
Qed.

(** What the handler parses is a list whenever it parses at all. *)
Lemma loads_payload lim response v :
  Json.loads lim (payload response) = inr v -> exists l, v = PList l.
Proof.
  intros H.
  destruct (Str.contains response "[") eqn:Hc.
  2: { rewrite loads_no_bracket in H by auto. discriminate. }
  destruct (find_from_present _ _ 0 Hc) as (k & Hk & Hf).
  pose proof (get_lt _ _ _ Hk) as Hlt.
  unfold payload, Str.slice, Str.find in H. rewrite Hf in H.
  replace (Z.to_nat (Str.adjust _ (0 + Z.of_nat k))) with k in H
    by (adjust_cases; lia).
  destruct (Z.to_nat (_ - _)) as [|m].
  - rewrite substring_none in H. discriminate.
  - destruct (substring_head _ _ _ m Hk) as [t Ht]. rewrite Ht in H.
    by eapply loads_bracket.
Qed.

(** ** The loop of lines 97-100 *)

Lemma eq_scored responses q id a c :
  Py.getitem q "id" = inr id ->
  Py.get responses id = inr a ->
  Py.getitem q "correct_answer" = inr c ->
  Py.eq a c = answered_right responses q || unanswered_null responses q.
Proof.
  intros Hid Ha Hc. unfold answered_right, unanswered_null, submitted, stored_answer.
  rewrite Hid, Hc.
  destruct id; simpl in Ha; try discriminate; injection Ha as <-;
    try (destruct c; done).
  destruct (responses !! s) as [a|]; destruct c; simpl; try done.
  by rewrite orb_false_r.
Qed.

Lemma tally_count responses qs : forall acc score,
  tally responses qs acc = inr score ->
  score = acc + count (λ q, answered_right responses q || unanswered_null responses q) qs.
Proof.
  unfold count.
  induction qs as [|q qs IH]; intros acc score H; simpl in H.
  - injection H as <-. simpl. lia.
  - destruct (Py.getitem q "id") as [e|id] eqn:Hid; [discriminate|].
    destruct (Py.get responses id) as [e|a] eqn:Ha; [discriminate|].
    destruct (Py.getitem q "correct_answer") as [e|c] eqn:Hc; [discriminate|].
    apply IH in H. rewrite (eq_scored _ _ _ _ _ Hid Ha Hc) in H.
    simpl. destruct (answered_right responses q || unanswered_null responses q);
      simpl in *; lia.
Qed.

Lemma count_bounds f qs : 0 <= count f qs <= Z.of_nat (length qs).
Proof.
  unfold count. pose proof (List.filter_length_le f qs). lia.
Qed.

Lemma iter_len o items :
  Py.iter o = inr items -> Py.len o = inr (Z.of_nat (length items)).
Proof.
  destruct o; simpl; try discriminate; intros [= <-].
  - by rewrite length_fmap.
  - done.
  - by rewrite !length_fmap, length_map_to_list.
Qed.

(** ** A successful [submit_quiz], step by step *)

Lemma fetch_one w quiz_id :
  Index.fetch [quiz_id] w =
    (inr (match index w !! quiz_id with
          | Some v => {[ quiz_id := v ]}
          | None => ∅
          end), w).
Proof. unfold Index.fetch. simpl. by destruct (index w !! quiz_id). Qed.

Lemma submit_quiz_inr app submission w r w' :
  submit_quiz app submission w = (inr r, w') ->
  exists v d questions items score,
    index w !! QuizSubmission.quiz_id submission = Some v /\
    metadata v = PDict d /\
    d !! "questions"%string = Some questions /\
    Py.iter questions = inr items /\
    tally (QuizSubmission.responses submission) items 0 = inr score /\
    r = PDict {[ "score" := PInt score;
                 "total" := PInt (Z.of_nat (length items)) ]} /\
    w' = {| index := <[QuizSubmission.quiz_id submission :=
                         {| values := values v;
                            metadata := PDict (<["completed" := PBool true]>
                                                 (<["score" := PInt score]> d)) |}]>
                       (index w);
            uuid_calls := uuid_calls w |}.
Proof.
  intros H. apply try_except_inr in H.
  apply bind_inr in H as (vectors & ? & H1 & H).
  rewrite fetch_one in H1. injection H1 as <- <-.
  destruct (index w !! QuizSubmission.quiz_id submission) as [v|] eqn:Hv.
  2: { rewrite bool_decide_eq_true_2 in H by done. discriminate. }
  rewrite bool_decide_eq_false_2 in H.
  2: { intros Hempty. apply (f_equal (lookup (QuizSubmission.quiz_id submission))) in Hempty.
       by rewrite lookup_singleton_eq, lookup_empty in Hempty. }
  apply bind_inr in H as (vector & ? & H2 & H). apply lift_inr in H2 as [H2 ->].
  rewrite lookup_singleton_eq in H2. injection H2 as <-.
  apply bind_inr in H as (questions & ? & H3 & H). apply lift_inr in H3 as [H3 ->].
  apply bind_inr in H as (items & ? & H4 & H). apply lift_inr in H4 as [H4 ->].
  apply bind_inr in H as (score & ? & H5 & H). apply lift_inr in H5 as [H5 ->].
  apply bind_inr in H as (m1 & ? & H6 & H). apply lift_inr in H6 as [H6 ->].
  apply bind_inr in H as (m2 & ? & H7 & H). apply lift_inr in H7 as [H7 ->].
  apply bind_inr in H as ([] & w1 & H8 & H).
  apply bind_inr in H as (total & ? & H9 & H). apply lift_inr in H9 as [H9 ->].
  unfold ret in H. injection H as <- <-.
  destruct (metadata v) as [| | | | | |d] eqn:Hmd; try discriminate.
  simpl in H3, H6. injection H6 as <-. simpl in H7. injection H7 as <-.
  destruct (d !! "questions"%string) as [qs|] eqn:Hq; [|discriminate].
  injection H3 as ->.
  rewrite (iter_len _ _ H4) in H9. injection H9 as <-.
  unfold Index.update in H8. rewrite Hv in H8. injection H8 as <-.
  exists v, d, questions, items, score. repeat split; try done.
  rewrite Hmd. simpl. do 4 f_equal.
  apply map_eq. intros k. rewrite lookup_union.
  destruct (decide (k = "completed"%string)) as [->|Hk1].
  { rewrite lookup_insert_eq. by destruct (d !! "completed"%string). }
  rewrite lookup_insert_ne by done.
  destruct (decide (k = "score"%string)) as [->|Hk2].
  { rewrite lookup_insert_eq. by destruct (d !! "score"%string). }
  rewrite lookup_insert_ne by done. by destruct (d !! k).
Qed.

(** ** UUIDs as text *)

Lemma hex_length k : forall n, length (Uuid.hex k n) = k.
Proof.
  induction k as [|k IH]; intros n; simpl; [done|].
  rewrite length_app, IH. simpl. lia.
Qed.

Lemma hex_digit_inj a b :
  (a < 16)%N -> (b < 16)%N -> Uuid.hex_digit a = Uuid.hex_digit b -> a = b.
Proof.
  intros Ha Hb H. apply (f_equal N_of_ascii) in H. unfold Uuid.hex_digit in H.
  destruct (N.ltb_spec a 10), (N.ltb_spec b 10);
    rewrite !N_ascii_embedding in H by lia; lia.
Qed.

Lemma hex_inj k : forall n m,
  (n < 16 ^ N.of_nat k)%N -> (m < 16 ^ N.of_nat k)%N ->
  Uuid.hex k n = Uuid.hex k m -> n = m.
Proof.
  induction k as [|k IH]; intros n m Hn Hm H.
  - simpl in *. lia.
  - simpl in H. apply app_inj_2 in H as [H1 H2]; [|done].
    injection H2 as H2.
    rewrite Nat2N.inj_succ, N.pow_succ_r' in Hn, Hm.
    apply IH in H1; [| apply N.Div0.div_lt_upper_bound; lia ..].
    apply hex_digit_inj in H2; [| apply N.mod_lt; lia ..].
    rewrite (N.div_mod n 16), (N.div_mod m 16) by lia. lia.
Qed.

Lemma string_of_list_ascii_inj l k :
  string_of_list_ascii l = string_of_list_ascii k -> l = k.
Proof.
  intros H. apply (f_equal list_ascii_of_string) in H.
  by rewrite !list_ascii_of_string_of_list_ascii in H.
Qed.

Lemma groups_inj h g :
  length h = 32%nat -> length g = 32%nat -> Uuid.groups h = Uuid.groups g -> h = g.
Proof.
  intros Ln Lm H. unfold Uuid.groups in H.
  apply app_inj_1 in H as [H1 H]; [|by rewrite !length_take, Ln, Lm].
  injection H as H.
  apply app_inj_1 in H as [H2 H]; [|by rewrite !length_take, !length_drop, Ln, Lm].
  injection H as H.
  apply app_inj_1 in H as [H3 H]; [|by rewrite !length_take, !length_drop, Ln, Lm].
  injection H as H.
  apply app_inj_1 in H as [H4 H]; [|by rewrite !length_take, !length_drop, Ln, Lm].
  injection H as H5.
  rewrite <- (take_drop 8 h), <- (take_drop 8 g), H1. f_equal.
  rewrite <- (take_drop 4 (drop 8 h)), <- (take_drop 4 (drop 8 g)), H2. f_equal.
  rewrite !drop_drop. simpl.
  rewrite <- (take_drop 4 (drop 12 h)), <- (take_drop 4 (drop 12 g)), H3. f_equal.
  rewrite !drop_drop. simpl.
  rewrite <- (take_drop 4 (drop 16 h)), <- (take_drop 4 (drop 16 g)), H4. f_equal.
  rewrite !drop_drop. simpl. done.
Qed.

Lemma str_inj n m :
  (n < 2 ^ 128)%N -> (m < 2 ^ 128)%N -> Uuid.str n = Uuid.str m -> n = m.
Proof.
  intros Hn Hm H. apply string_of_list_ascii_inj in H.
  apply groups_inj in H; [|apply hex_length ..].
  by apply (hex_inj 32).
Qed.

Lemma str_nonempty n : Uuid.str n <> EmptyString.
Proof.
  unfold Uuid.str, Uuid.groups. intros H.
  apply (f_equal list_ascii_of_string) in H.
  rewrite list_ascii_of_string_of_list_ascii in H.
  apply (f_equal length) in H. rewrite length_app in H. simpl in H. lia.
Qed.

Lemma uuid4_bound r : (Uuid.uuid4 r < 2 ^ 128)%N.
Proof.
  assert (Uuid.uuid4 r = Uuid.uuid4 r mod 2 ^ 128)%N as Hmod.
  2: { rewrite Hmod. apply N.mod_lt. discriminate. }
  apply N.bits_inj. intros k.
  destruct (N.lt_ge_cases k 128) as [Hk|Hk].
  { rewrite N.mod_pow2_bits_low; [reflexivity|exact Hk]. }
  rewrite N.mod_pow2_bits_high; [|exact Hk].
  unfold Uuid.uuid4.
  rewrite N.lor_spec, N.ldiff_spec, N.lor_spec, N.ldiff_spec.
  rewrite N.mod_pow2_bits_high; [|exact Hk].
  rewrite (N.bits_above_log2 (N.shiftl 32768 48))
    by (eapply N.lt_le_trans; [|exact Hk]; reflexivity).
  rewrite (N.bits_above_log2 (N.shiftl 4 76))
    by (eapply N.lt_le_trans; [|exact Hk]; reflexivity).
  reflexivity.
Qed.

Lemma nth_uuid_nonempty app k : nth_uuid app k <> EmptyString.
Proof. apply str_nonempty. Qed.



(** * The claims *)

(** ** Rendering the prompt *)

(** C2 (as the code behaves): for every topic and difficulty,
    [quiz_prompt.format(topic=..., difficulty=...)] raises
    [KeyError("'id'")].  The braces of the JSON example in the template
    are not doubled, so ['id'] is read as the name of a third
    replacement field, for which no argument is given. *)
Theorem quiz_prompt_format_raises render_field topic difficulty :
  PromptTemplate_format render_field quiz_prompt
    [("topic", topic); ("difficulty", difficulty)]%string
  = inl (KeyError "'id'").
Proof. reflexivity. Qed.

(** With the braces doubled the template renders for every topic and
    difficulty, to the instruction with both substituted. *)
Lemma escaped_prompt_format render_field topic difficulty :
  PromptTemplate_format render_field escaped_prompt
    [("topic", topic); ("difficulty", difficulty)]%string
  = inr ("Generate 5 " +:+ difficulty +:+ " multiple-choice questions about "
         +:+ topic +:+ ". Format as JSON: [{'id':'uuid','question':'text','options':['a','b','c','d'],'correct_answer':'a'}]").
Proof. reflexivity. Qed.

(** Hence [generate_quiz] of the program as written answers every
    request with a 500, and stores nothing. *)
Lemma generate_quiz_main render_field llm urandom lim request w :
  generate_quiz (main render_field llm urandom lim) request w
  = (inl (HTTPException 500 (StrOf (KeyError "'id'"))), w).
Proof. reflexivity. Qed.

(** ** An unknown quiz *)

Lemma submit_quiz_absent app submission w :
  index w !! QuizSubmission.quiz_id submission = None ->
  submit_quiz app submission w
  = (inl (HTTPException 500 (StrOf (HTTPException 404 (Text "Quiz not found")))), w).
Proof.
  intros H. unfold submit_quiz, try_except, bind.
  rewrite fetch_one, H. by rewrite bool_decide_eq_true_2.
Qed.

(** C1 (as the code behaves): on an empty index, every submission is
    answered with status 500; the [HTTPException] with status 404
    raised at line 91 is caught by [except Exception] at line 109 and
    only survives as the detail text of the 500. *)
Theorem submit_quiz_unknown_id_is_500 app submission n :
  submit_quiz app submission {| index := ∅; uuid_calls := n |}
  = (inl (HTTPException 500 (StrOf (HTTPException 404 (Text "Quiz not found")))),
     {| index := ∅; uuid_calls := n |}).
Proof. apply submit_quiz_absent. apply lookup_empty. Qed.

(** ** What [generate_quiz] returns and stores *)

(** A successful call, told through the questions: those parsed from
    the model's text, those stored, and those returned. *)
Lemma generate_quiz_questions app request w r w' :
  generate_quiz app request w = (inr r, w') ->
  exists parsed stored client,
    model_questions app request parsed /\
    (exists w1, assign_ids app parsed w = (inr stored, w1)) /\
    redact stored = inr client /\
    let quiz_id := nth_uuid app (uuid_calls w + length parsed) in
    r = PDict {[ "quiz_id" := PStr quiz_id; "questions" := PList client ]} /\
    w' = {| index := <[quiz_id := {| values := replicate 768 0;
                                     metadata := quiz_metadata request (PList stored) |}]>
                       (index w);
            uuid_calls := S (uuid_calls w + length parsed) |}.
Proof.
  intros H.
  apply generate_quiz_inr in H
    as (prompt & response & questions & items & items' & client & w1
        & Hp & Hr & Hq & Hi & Ha & Hc & -> & ->).
  destruct (loads_payload _ _ _ Hq) as [l ->]. simpl in Hi. injection Hi as <-.
  pose proof (assign_ids_inr _ _ _ _ _ Ha) as (Hix & Hn & _ & _).
  exists l, items', client. rewrite Hix, Hn. simpl.
  split; [by exists prompt, response|]. split; [by exists w1|]. done.
Qed.


(** C5: every question of a successful [generate_quiz] response is the
    stored question with ["correct_answer"] set to [None]; in
    particular its ["correct_answer"] is [None]. *)
Theorem generate_quiz_redacts app request w r w' :
  generate_quiz app request w = (inr r, w') ->
  exists quiz_id md stored client,
    r = PDict {[ "quiz_id" := PStr quiz_id; "questions" := PList client ]} /\
    stored_quiz w' quiz_id md stored /\
    length client = length stored /\
    (forall (k : nat) q, stored !! k = Some q ->
       exists c, client !! k = Some c /\
         Py.unpack_with q "correct_answer" PNone = inr c) /\
    Forall (λ c, Py.getitem c "correct_answer" = inr PNone) client.
Proof.
  intros H.
  apply generate_quiz_questions in H
    as (parsed & stored & client & Hm & [w1 Ha] & Hc & Hr & ->).
  eexists _, (quiz_metadata request (PList stored)), stored, client.
  split; [done|]. split.
  { eexists _, (PList stored). simpl. rewrite lookup_insert_eq. done. }
  apply redact_inr in Hc as [Hlen Hall]. split; [done|]. split; [done|].
  apply Forall_lookup_2. intros k c Hk.
  assert (is_Some (stored !! k)) as [q Hq].
  { apply lookup_lt_is_Some. rewrite <- Hlen. by eapply lookup_lt_Some. }
  destruct (Hall k q Hq) as (c' & Hc' & Hu). rewrite Hk in Hc'. injection Hc' as <-.
  destruct q; try discriminate. injection Hu as <-. simpl.
  by rewrite lookup_insert_eq.
Qed.

(** C9: the record a successful [generate_quiz] stores has neither a
    ["completed"] nor a ["score"] entry; read with its default,
    [completed] is [False]. *)
Theorem generate_quiz_not_completed app request w r w' :
  generate_quiz app request w = (inr r, w') ->
  exists quiz_id client v,
    r = PDict {[ "quiz_id" := PStr quiz_id; "questions" := PList client ]} /\
    index w' !! quiz_id = Some v /\
    Py.getitem (metadata v) "score" = inl (KeyError "score") /\
    Py.getitem (metadata v) "completed" = inl (KeyError "completed") /\
    Py.get_default (metadata v) "completed" (PBool false) = inr (PBool false).
Proof.
  intros H.
  apply generate_quiz_questions in H
    as (parsed & stored & client & Hm & [w1 Ha] & Hc & Hr & ->).
  eexists _, client, _. split; [done|]. split.
  { simpl. apply lookup_insert_eq. }
  done.
Qed.


(** C7: when the text the model returned for the request's prompt
    lacks a ['['] or a [']'], or holds no valid JSON array between its
    first ['['] and its last [']'], [generate_quiz] fails with a 500
    that carries the error [json.loads] raised, and nothing has
    changed: no record was stored, and the rest of the world is as it
    was too. *)
Theorem generate_quiz_unusable_text app request w prompt text :
  quiz_prompt_format app (prompt_kwargs request) = inr prompt ->
  watsonx_llm app prompt = inr text ->
  unusable (limits app) text ->
  exists e,
    Json.loads (limits app) (payload text) = inl e /\
    generate_quiz app request w = (inl (HTTPException 500 (StrOf e)), w).
Proof.
  intros Hp Hr Hbad.
  assert (exists e, Json.loads (limits app) (payload text) = inl e) as [e He].
  { destruct (Json.loads (limits app) (payload text)) as [e|v] eqn:Hq; [eauto|].
    exfalso. destruct (loads_payload _ _ _ Hq) as [l ->].
    destruct Hbad as [Hno|[Hno|Hno]].
    - rewrite loads_no_bracket in Hq by auto. discriminate.
    - rewrite loads_no_bracket in Hq by auto. discriminate.
    - by apply Hno in Hq. }
  exists e. split; [exact He|].
  unfold generate_quiz, try_except.
  unfold bind at 1. unfold lift at 1. fold (prompt_kwargs request). rewrite Hp.
  unfold bind at 1. unfold lift at 1. rewrite Hr.
  unfold bind at 1. unfold lift at 1. fold (payload text). rewrite He.
  reflexivity.
Qed.

(** ** What [submit_quiz] returns and stores *)

(** For any stored record, typed or not: the score is the number of
    stored questions whose submitted answer is exactly the stored
    correct answer, or for which nothing was submitted while the stored
    correct answer is [None] ([None == None] holds at line 99). *)
Lemma submit_quiz_score_any_record app submission w r w' :
  submit_quiz app submission w = (inr r, w') ->
  let responses := QuizSubmission.responses submission in
  let quiz_id := QuizSubmission.quiz_id submission in
  exists md items md',
    stored_quiz w quiz_id md items /\
    r = PDict {[ "score" := PInt (count (λ q, answered_right responses q
                                              || unanswered_null responses q) items);
                 "total" := PInt (Z.of_nat (length items)) ]} /\
    stored_quiz w' quiz_id md' items /\
    Py.getitem md' "completed" = inr (PBool true) /\
    Py.getitem md' "score"
      = inr (PInt (count (λ q, answered_right responses q
                               || unanswered_null responses q) items)).
Proof.
  intros H responses quiz_id.
  apply submit_quiz_inr in H
    as (v & d & questions & items & score & Hv & Hmd & Hq & Hi & Ht & -> & ->).
  apply tally_count in Ht. rewrite Z.add_0_l in Ht. subst score.
  eexists (PDict d), items, _.
  split. { exists v, questions. simpl. by rewrite Hq. }
  split; [done|]. split.
  { eexists _, questions. simpl. rewrite lookup_insert_eq.
    split; [done|]. split; [done|]. split; [|done].
    simpl. rewrite !lookup_insert_ne by done. by rewrite Hq. }
  simpl. rewrite lookup_insert_eq. split; [done|].
  rewrite lookup_insert_ne by done. by rewrite lookup_insert_eq.
Qed.

(** Where every stored correct answer is a [str], a missing response
    is a wrong one and the score is the number of exactly matching
    answers. *)
Lemma count_typed responses items :
  Forall answer_is_str items ->
  count (λ q, answered_right responses q || unanswered_null responses q) items
  = count (answered_right responses) items.
Proof.
  unfold count. induction 1 as [|q items [c Hc] _ IH]; [done|]. simpl.
  assert (unanswered_null responses q = false) as ->.
  { unfold unanswered_null, stored_answer. rewrite Hc.
    by destruct (submitted responses q). }
  rewrite orb_false_r. destruct (answered_right responses q); simpl; lia.
Qed.

Lemma stored_quiz_unique w quiz_id md items md' items' :
  stored_quiz w quiz_id md items -> stored_quiz w quiz_id md' items' ->
  md = md' /\ items = items'.
Proof.
  intros (v & qs & Hv & <- & Hq & Hi) (v' & qs' & Hv' & <- & Hq' & Hi').
  rewrite Hv in Hv'. injection Hv' as <-. split; [done|]. congruence.
Qed.

(** C3: for a stored quiz whose questions have a [str] as correct
    answer, as the [Question] model of lines 36-40 declares it, a
    successful [submit_quiz] returns as score the number of stored
    questions whose submitted answer is, character for character, the
    stored correct answer, a question without a submitted answer not
    counting; as total the number of stored questions; and the record
    stored afterwards has the same questions, [completed = True] and
    that score. *)
Theorem submit_quiz_score app submission w r w' md items :
  submit_quiz app submission w = (inr r, w') ->
  stored_quiz w (QuizSubmission.quiz_id submission) md items ->
  Forall answer_is_str items ->
  let score := count (answered_right (QuizSubmission.responses submission)) items in
  r = PDict {[ "score" := PInt score; "total" := PInt (Z.of_nat (length items)) ]} /\
  exists md',
    stored_quiz w' (QuizSubmission.quiz_id submission) md' items /\
    Py.getitem md' "completed" = inr (PBool true) /\
    Py.getitem md' "score" = inr (PInt score).
Proof.
  intros H Hs Ht score.
  apply submit_quiz_score_any_record in H
    as (md0 & items0 & md' & Hs0 & -> & Hs' & Hc & Hsc).
  destruct (stored_quiz_unique _ _ _ _ _ _ Hs Hs0) as [_ <-].
  rewrite (count_typed _ _ Ht) in Hsc |- *.
  split; [reflexivity|]. by exists md'.
Qed.

(** C8: a successful [submit_quiz] changes, in the index, only the
    record of the submitted quiz and, in that record, only the
    ["score"] and ["completed"] entries of the metadata: the vector
    values and every other entry, [user_id], [topic], [difficulty] and
    [questions] among them, are as before. *)
Theorem submit_quiz_frame app submission w r w' :
  submit_quiz app submission w = (inr r, w') ->
  let quiz_id := QuizSubmission.quiz_id submission in
  exists v v',
    index w !! quiz_id = Some v /\
    index w' !! quiz_id = Some v' /\
    values v' = values v /\
    (forall key, key <> "score"%string -> key <> "completed"%string ->
       Py.getitem (metadata v') key = Py.getitem (metadata v) key) /\
    Py.getitem (metadata v') "user_id" = Py.getitem (metadata v) "user_id" /\
    Py.getitem (metadata v') "topic" = Py.getitem (metadata v) "topic" /\
    Py.getitem (metadata v') "difficulty" = Py.getitem (metadata v) "difficulty" /\
    Py.getitem (metadata v') "questions" = Py.getitem (metadata v) "questions" /\
    (forall id, id <> quiz_id -> index w' !! id = index w !! id) /\
    uuid_calls w' = uuid_calls w.
Proof.
  intros H quiz_id.
  apply submit_quiz_inr in H
    as (v & d & questions & items & score & Hv & Hmd & Hq & Hi & Ht & -> & ->).
  eexists v, _. split; [done|]. split; [apply lookup_insert_eq|].
  simpl. rewrite Hmd. simpl.
  assert (forall key, key <> "score"%string -> key <> "completed"%string ->
    match <["completed":=PBool true]> (<["score":=PInt score]> d) !! key with
    | Some v0 => inr v0 | None => inl (KeyError key) end
    = match d !! key with Some v0 => inr v0 | None => inl (KeyError key) end) as Hkey.
  { intros key H1 H2. by rewrite !lookup_insert_ne. }
  repeat split; try (apply Hkey; done); try done.
  intros id Hid. by rewrite lookup_insert_ne.
Qed.

(** C10: the score a successful [submit_quiz] returns and stores lies
    between 0 and the returned total, which is the number of stored
    questions. *)
Theorem submit_quiz_score_bounds app submission w r w' :
  submit_quiz app submission w = (inr r, w') ->
  exists score total v',
    r = PDict {[ "score" := PInt score; "total" := PInt total ]} /\
    index w' !! QuizSubmission.quiz_id submission = Some v' /\
    Py.getitem (metadata v') "score" = inr (PInt score) /\
    (exists md items,
       stored_quiz w (QuizSubmission.quiz_id submission) md items /\
       total = Z.of_nat (length items)) /\
    0 <= score <= total.
Proof.
  intros H.
  apply submit_quiz_inr in H
    as (v & d & questions & items & score & Hv & Hmd & Hq & Hi & Ht & -> & ->).
  eexists score, _, _. split; [done|]. split; [apply lookup_insert_eq|].
  simpl. rewrite lookup_insert_ne by done. rewrite lookup_insert_eq.
  split; [done|]. split.
  { exists (PDict d), items. split; [|done]. exists v, questions. simpl. by rewrite Hq. }
  apply tally_count in Ht. rewrite Z.add_0_l in Ht. subst score.
  apply count_bounds.
Qed.

(** ** Concrete runs *)

(** The handler is its first two steps, then lines 60-80 on the text
    the model returned. *)
Lemma generate_quiz_from_response app request :
  generate_quiz app request
  = try_except
      (prompt <- lift (quiz_prompt_format app (prompt_kwargs request)) ;;
       response <- lift (watsonx_llm app prompt) ;;
       quiz_from_response app request response)
      (λ e, raise (HTTPException 500 (StrOf e))).
Proof. reflexivity. Qed.

(** Hence the successful responses of the handler are the successful
    results of lines 60-80 on the text the model returned for the
    request's prompt. *)
Lemma generate_quiz_inr_from_response app request w r w' :
  generate_quiz app request w = (inr r, w') <->
  exists prompt response,
    quiz_prompt_format app (prompt_kwargs request) = inr prompt /\
    watsonx_llm app prompt = inr response /\
    quiz_from_response app request response w = (inr r, w').
Proof.
  rewrite generate_quiz_from_response. unfold try_except.
  unfold bind at 1. unfold lift at 1.
  destruct (quiz_prompt_format app (prompt_kwargs request)) as [e|prompt].
  { split; [discriminate|]. intros (? & ? & ? & _). discriminate. }
  unfold bind at 1. unfold lift at 1.
  destruct (watsonx_llm app prompt) as [e|response] eqn:Hl.
  { split; [discriminate|]. intros (? & ? & [= <-] & H & _). congruence. }
  split.
  - intros H. exists prompt, response. split; [done|]. split; [done|].
    destruct (quiz_from_response app request response w) as [[e|r0] w0];
      [discriminate|exact H].
  - intros (? & ? & [= <-] & H & Hq). rewrite Hl in H. injection H as <-.
    rewrite Hq. reflexivity.
Qed.



(** Outside the [Question] model: a stored question whose correct
    answer is [None] (a [null] in the model's text, which
    [generate_quiz] stores unchecked) counts for a submission that gives
    no answer to it. *)
Example null_answer_scores :
  index world_null !! quiz1_id
    = Some {| values := replicate 768 0;
              metadata := quiz_metadata req1 (PList [null_question]) |} /\
  fst (submit_quiz app1 empty_submission world_null)
    = inr (PDict {[ "score" := PInt 1; "total" := PInt 1 ]}).
Proof. split; vm_compute; reflexivity. Qed.

Lemma run1 : generate_quiz app1 req1 empty_world = (inr response1, world1).
Proof. vm_compute. reflexivity. Qed.

Lemma run2 : submit_quiz app1 submission1 world1 = (inr score_response1, world2).
Proof. vm_compute. reflexivity. Qed.


Lemma generate_quiz_redacts_witness :
  generate_quiz app1 req1 empty_world = (inr response1, world1) /\
  exists quiz_id md stored client,
    response1 = PDict {[ "quiz_id" := PStr quiz_id; "questions" := PList client ]} /\
    stored_quiz world1 quiz_id md stored /\
    length client = length stored /\
    (forall (k : nat) q, stored !! k = Some q ->
       exists c, client !! k = Some c /\
         Py.unpack_with q "correct_answer" PNone = inr c) /\
    Forall (λ c, Py.getitem c "correct_answer" = inr PNone) client.
Proof.
  split; [vm_compute; reflexivity|].
  apply (generate_quiz_redacts app1 req1 empty_world response1 world1).
  vm_compute. reflexivity.
Defined.

Lemma generate_quiz_not_completed_witness :
  generate_quiz app1 req1 empty_world = (inr response1, world1) /\
  exists quiz_id client v,
    response1 = PDict {[ "quiz_id" := PStr quiz_id; "questions" := PList client ]} /\
    index world1 !! quiz_id = Some v /\
    Py.getitem (metadata v) "score" = inl (KeyError "score") /\
    Py.getitem (metadata v) "completed" = inl (KeyError "completed") /\
    Py.get_default (metadata v) "completed" (PBool false) = inr (PBool false).
Proof.
  split; [vm_compute; reflexivity|].
  apply (generate_quiz_not_completed app1 req1 empty_world response1 world1).
  vm_compute. reflexivity.
Defined.

Lemma run_two : generate_quiz app2 req1 empty_world = (inr response_two, world_two).
Proof. vm_compute. reflexivity. Qed.


(** On that run the two [uuid4()] calls differ, and so do the ids. *)
Example two_ids_differ :
  distinct_uuids app2 0 2 /\
  nth_uuid app2 <$> seq 0 2
  = ["00000000-0000-4000-8000-000000000000"; "00000000-0000-4000-8000-000000000001"]%string.
Proof.
  split; [|vm_compute; reflexivity].
  intros i j Hi Hj.
  assert (i = 0 /\ j = 1)%nat as [-> ->] by lia.
  vm_compute. discriminate.
Qed.

Lemma generate_quiz_unusable_text_witness :
  (quiz_prompt_format app_mixed (prompt_kwargs req1) = inr prompt1 /\
   watsonx_llm app_mixed prompt1 = inr refusal_text /\
   unusable (limits app_mixed) refusal_text /\
   exists e,
     Json.loads (limits app_mixed) (payload refusal_text) = inl e /\
     generate_quiz app_mixed req1 world1
       = (inl (HTTPException 500 (StrOf e)), world1)) /\
  (quiz_prompt_format (app_with malformed_text) (prompt_kwargs req1) = inr prompt1 /\
   watsonx_llm (app_with malformed_text) prompt1 = inr malformed_text /\
   unusable (limits (app_with malformed_text)) malformed_text /\
   exists e,
     Json.loads (limits (app_with malformed_text)) (payload malformed_text) = inl e /\
     generate_quiz (app_with malformed_text) req1 world1
       = (inl (HTTPException 500 (StrOf e)), world1)).
Proof.
  assert (unusable (limits app_mixed) refusal_text) as Hbad1
    by (left; reflexivity).
  assert (unusable (limits (app_with malformed_text)) malformed_text) as Hbad2.
  { right. right. intros l. vm_compute. discriminate. }
  split.
  - split; [reflexivity|]. split; [reflexivity|]. split; [exact Hbad1|].
    apply (generate_quiz_unusable_text app_mixed req1 world1 prompt1 refusal_text);
      [reflexivity|reflexivity|exact Hbad1].
  - split; [reflexivity|]. split; [reflexivity|]. split; [exact Hbad2|].
    apply (generate_quiz_unusable_text (app_with malformed_text) req1 world1
             prompt1 malformed_text);
      [reflexivity|reflexivity|exact Hbad2].
Defined.

(** The same model answers a request whose prompt it does not refuse. *)
Example app_mixed_answers :
  fst (generate_quiz app_mixed req2 empty_world) = inr response1.
Proof. vm_compute. reflexivity. Qed.

Lemma stored_two_quiz :
  stored_quiz world_two quiz_two_id (quiz_metadata req1 (PList stored_two)) stored_two.
Proof.
  exists {| values := replicate 768 0;
            metadata := quiz_metadata req1 (PList stored_two) |}, (PList stored_two).
  split; [vm_compute; reflexivity|]. split; [reflexivity|].
  split; [vm_compute; reflexivity|reflexivity].
Qed.

Lemma submit_quiz_score_witness :
  submit_quiz app1 submission_two world_two
    = (inr (PDict {[ "score" := PInt 1; "total" := PInt 2 ]}),
       snd (submit_quiz app1 submission_two world_two)) /\
  stored_quiz world_two (QuizSubmission.quiz_id submission_two)
    (quiz_metadata req1 (PList stored_two)) stored_two /\
  Forall answer_is_str stored_two /\
  let score := count (answered_right (QuizSubmission.responses submission_two))
                 stored_two in
  PDict {[ "score" := PInt 1; "total" := PInt 2 ]}
    = PDict {[ "score" := PInt score;
               "total" := PInt (Z.of_nat (length stored_two)) ]} /\
  exists md',
    stored_quiz (snd (submit_quiz app1 submission_two world_two))
      (QuizSubmission.quiz_id submission_two) md' stored_two /\
    Py.getitem md' "completed" = inr (PBool true) /\
    Py.getitem md' "score" = inr (PInt score).
Proof.
  assert (Forall answer_is_str stored_two) as Ht.
  { constructor; [by exists "4"%string|]. constructor; [by exists "6"%string|].
    constructor. }
  split; [vm_compute; reflexivity|]. split; [exact stored_two_quiz|].
  split; [exact Ht|].
  apply (submit_quiz_score app1 submission_two world_two _
           (snd (submit_quiz app1 submission_two world_two))
           (quiz_metadata req1 (PList stored_two)) stored_two).
  - vm_compute. reflexivity.
  - exact stored_two_quiz.
  - exact Ht.
Defined.

Lemma submit_quiz_frame_witness :
  submit_quiz app1 submission1 world1 = (inr score_response1, world2) /\
  let quiz_id := QuizSubmission.quiz_id submission1 in
  exists v v',
    index world1 !! quiz_id = Some v /\
    index world2 !! quiz_id = Some v' /\
    values v' = values v /\
    (forall key, key <> "score"%string -> key <> "completed"%string ->
       Py.getitem (metadata v') key = Py.getitem (metadata v) key) /\
    Py.getitem (metadata v') "user_id" = Py.getitem (metadata v) "user_id" /\
    Py.getitem (metadata v') "topic" = Py.getitem (metadata v) "topic" /\
    Py.getitem (metadata v') "difficulty" = Py.getitem (metadata v) "difficulty" /\
    Py.getitem (metadata v') "questions" = Py.getitem (metadata v) "questions" /\
    (forall id, id <> quiz_id -> index world2 !! id = index world1 !! id) /\
    uuid_calls world2 = uuid_calls world1.
Proof.
  split; [vm_compute; reflexivity|].
  apply (submit_quiz_frame app1 submission1 world1 score_response1 world2).
  vm_compute. reflexivity.
Defined.

Lemma submit_quiz_score_bounds_witness :
  submit_quiz app1 submission1 world1 = (inr score_response1, world2) /\
  exists score total v',
    score_response1 = PDict {[ "score" := PInt score; "total" := PInt total ]} /\
    index world2 !! QuizSubmission.quiz_id submission1 = Some v' /\
    Py.getitem (metadata v') "score" = inr (PInt score) /\
    (exists md items,
       stored_quiz world1 (QuizSubmission.quiz_id submission1) md items /\
       total = Z.of_nat (length items)) /\
    0 <= score <= total.
Proof.
  split; [vm_compute; reflexivity|].
  apply (submit_quiz_score_bounds app1 submission1 world1 score_response1 world2).
  vm_compute. reflexivity.
Defined.

(** * Further properties of the handlers *)

(** ** [submit_quiz] as a function of the stored quiz *)

Lemma merge_scored d score :
  Index.merge (PDict d)
    (PDict (<["completed" := PBool true]> (<["score" := PInt score]> d)))
  = PDict (<["completed" := PBool true]> (<["score" := PInt score]> d)).
Proof.
  simpl. f_equal. apply map_eq. intros k. rewrite lookup_union.
  destruct (decide (k = "completed"%string)) as [->|Hk1].
  { rewrite lookup_insert_eq. by destruct (d !! "completed"%string). }
  rewrite lookup_insert_ne by done.
  destruct (decide (k = "score"%string)) as [->|Hk2].
  { rewrite lookup_insert_eq. by destruct (d !! "score"%string). }
  rewrite lookup_insert_ne by done. by destruct (d !! k).
Qed.

Lemma singleton_not_empty (k : string) (v : Vector) :
  ({[ k := v ]} : gmap string Vector) <> ∅.
Proof.
  intros H. apply (f_equal (lookup k)) in H.
  by rewrite lookup_singleton_eq, lookup_empty in H.
Qed.

(** The run of [submit_quiz] on a quiz that is stored. *)
Lemma submit_quiz_stored app submission w v :
  index w !! QuizSubmission.quiz_id submission = Some v ->
  submit_quiz app submission w =
    match metadata v with
    | PDict d =>
        match d !! "questions"%string with
        | Some questions =>
            match Py.iter questions with
            | inr items =>
                match tally (QuizSubmission.responses submission) items 0 with
                | inr score =>
                    (inr (PDict {[ "score" := PInt score;
                                   "total" := PInt (Z.of_nat (length items)) ]}),
                     scored_world w (QuizSubmission.quiz_id submission) v d score)
                | inl e => (inl (HTTPException 500 (StrOf e)), w)
                end
            | inl e => (inl (HTTPException 500 (StrOf e)), w)
            end
        | None => (inl (HTTPException 500 (StrOf (KeyError "questions"))), w)
        end
    | _ => (inl (HTTPException 500 (StrOf TypeError)), w)
    end.
Proof.
  intros Hv. unfold submit_quiz, try_except, bind.
  rewrite fetch_one, Hv.
  rewrite bool_decide_eq_false_2 by apply singleton_not_empty.
  unfold lift at 1. rewrite lookup_singleton_eq.
  destruct (metadata v) as [| | | | | |d] eqn:Hmd; try done.
  unfold lift at 1. simpl.
  destruct (d !! "questions"%string) as [questions|]; [|done].
  destruct (Py.iter questions) as [e|items] eqn:Hi; [done|].
  destruct (tally _ items 0) as [e|score]; [done|].
  unfold Index.update. rewrite Hv, Hmd, merge_scored.
  by rewrite (iter_len _ _ Hi).
Qed.

(** X1: whatever makes [submit_quiz] fail, the caller gets status 500
    with [str(e)] as detail, never another status, and the world is as
    it was before the call. *)
Theorem submit_quiz_failure app submission w e w' :
  submit_quiz app submission w = (inl e, w') ->
  w' = w /\ exists e0, e = HTTPException 500 (StrOf e0).
Proof.
  intros H.
  destruct (index w !! QuizSubmission.quiz_id submission) as [v|] eqn:Hv.
  - rewrite (submit_quiz_stored _ _ _ _ Hv) in H.
    destruct (metadata v) as [| | | | | |d]; try (injection H as <- <-; eauto).
    destruct (d !! "questions"%string) as [questions|];
      [|injection H as <- <-; eauto].
    destruct (Py.iter questions) as [e1|items]; [injection H as <- <-; eauto|].
    destruct (tally _ items 0) as [e1|score]; [injection H as <- <-; eauto|].
    discriminate.
  - rewrite (submit_quiz_absent _ _ _ Hv) in H. injection H as <- <-. eauto.
Qed.

Lemma submit_quiz_failure_witness :
  submit_quiz app1 empty_submission empty_world
    = (inl (HTTPException 500 (StrOf (HTTPException 404 (Text "Quiz not found")))),
       empty_world) /\
  empty_world = empty_world /\
  exists e0, HTTPException 500 (StrOf (HTTPException 404 (Text "Quiz not found")))
             = HTTPException 500 (StrOf e0).
Proof.
  split; [vm_compute; reflexivity|].
  apply (submit_quiz_failure app1 empty_submission empty_world).
  vm_compute. reflexivity.
Defined.

(** ** What a submission's outcome depends on *)

Lemma tally_agree r1 r2 items : forall acc,
  agree_on items r1 r2 -> tally r1 items acc = tally r2 items acc.
Proof.
  induction items as [|q items IH]; intros acc Ha; simpl; [done|].
  destruct (Py.getitem q "id") as [e|id] eqn:Hid; [done|].
  assert (Py.get r1 id = Py.get r2 id) as ->.
  { destruct id; simpl; try done. f_equal. apply (Ha q); [left|done]. }
  destruct (Py.get r2 id) as [e|a]; [done|].
  destruct (Py.getitem q "correct_answer") as [e|c]; [done|].
  apply IH. intros q' id' Hq'. apply Ha. by right.
Qed.

(** Whether the loop of lines 97-100 gets through does not depend on
    what was submitted. *)
Lemma tally_succeeds r r' items : forall acc acc' score,
  tally r items acc = inr score -> exists score', tally r' items acc' = inr score'.
Proof.
  induction items as [|q items IH]; intros acc acc' score H; simpl in *; [eauto|].
  destruct (Py.getitem q "id") as [e|id]; [discriminate|].
  destruct (Py.get r id) as [e|a] eqn:Ha; [discriminate|].
  assert (exists a', Py.get r' id = inr a') as [a' ->].
  { destruct id; simpl in *; try discriminate; eauto. }
  destruct (Py.getitem q "correct_answer") as [e|c]; [discriminate|].
  eapply IH. exact H.
Qed.

(** X2: the outcome of [submit_quiz] depends only on the quiz id and on
    the answers given to the ids of the stored questions: entries of
    [responses] under other keys are ignored, and so is the [user_id] of
    the submission, which is never compared with the quiz's. *)
Theorem submit_quiz_ignores_other_keys app app' s1 s2 w :
  QuizSubmission.quiz_id s1 = QuizSubmission.quiz_id s2 ->
  (forall md items,
     stored_quiz w (QuizSubmission.quiz_id s1) md items ->
     agree_on items (QuizSubmission.responses s1) (QuizSubmission.responses s2)) ->
  submit_quiz app s1 w = submit_quiz app' s2 w.
Proof.
  intros Hid Hagree.
  destruct (index w !! QuizSubmission.quiz_id s1) as [v|] eqn:Hv.
  - rewrite (submit_quiz_stored app s1 w v Hv).
    rewrite Hid in Hv. rewrite (submit_quiz_stored app' s2 w v Hv).
    rewrite <- Hid in *.
    destruct (metadata v) as [| | | | | |d] eqn:Hmd; try done.
    destruct (d !! "questions"%string) as [questions|] eqn:Hq; [|done].
    destruct (Py.iter questions) as [e1|items] eqn:Hi; [done|].
    rewrite (tally_agree (QuizSubmission.responses s1) (QuizSubmission.responses s2)).
    + by rewrite Hid.
    + apply (Hagree (PDict d)). exists v, questions. simpl. by rewrite Hq.
  - rewrite (submit_quiz_absent app s1 w Hv).
    rewrite Hid in Hv. by rewrite (submit_quiz_absent app' s2 w Hv).
Qed.

Lemma submit_quiz_ignores_other_keys_witness :
  QuizSubmission.quiz_id submission1 = QuizSubmission.quiz_id submission1_extra /\
  (forall md items,
     stored_quiz world1 (QuizSubmission.quiz_id submission1) md items ->
     agree_on items (QuizSubmission.responses submission1)
       (QuizSubmission.responses submission1_extra)) /\
  submit_quiz app1 submission1 world1
    = submit_quiz (app_with refusal_text) submission1_extra world1.
Proof.
  assert (forall md items,
     stored_quiz world1 (QuizSubmission.quiz_id submission1) md items ->
     agree_on items (QuizSubmission.responses submission1)
       (QuizSubmission.responses submission1_extra)) as Hagree.
  { intros md items (v & questions & Hv & <- & Hq & Hi).
    vm_compute in Hv. injection Hv as <-.
    vm_compute in Hq. injection Hq as <-.
    vm_compute in Hi. injection Hi as <-.
    intros q id Hq Hid. apply list_elem_of_singleton in Hq as ->.
    vm_compute in Hid. injection Hid as <-. vm_compute. reflexivity. }
  split; [reflexivity|]. split; [exact Hagree|].
  apply (submit_quiz_ignores_other_keys app1 (app_with refusal_text)
           submission1 submission1_extra world1 eq_refl Hagree).
Defined.

(** ** Submitting more than once *)

Lemma scored_again (d : gmap string pyval) (s1 s2 : Z) :
  <["completed" := PBool true]>
    (<["score" := PInt s2]>
       (<["completed" := PBool true]> (<["score" := PInt s1]> d)))
  = <["completed" := PBool true]> (<["score" := PInt s2]> d).
Proof.
  apply map_eq. intros k.
  destruct (decide (k = "completed"%string)) as [->|Hk1].
  { by rewrite !lookup_insert_eq. }
  rewrite !(lookup_insert_ne _ "completed"%string) by done.
  destruct (decide (k = "score"%string)) as [->|Hk2].
  { by rewrite !lookup_insert_eq. }
  rewrite !(lookup_insert_ne _ "score"%string) by done.
  by rewrite !lookup_insert_ne.
Qed.

(** X3: a submission made after a successful one for the same quiz
    ends exactly as if the earlier one had never been made: same
    response, same world.  The last submission wins, the score of the
    earlier one is overwritten, and [completed] does not stop it. *)
Theorem submit_quiz_last_wins app s1 s2 w r1 w1 :
  submit_quiz app s1 w = (inr r1, w1) ->
  QuizSubmission.quiz_id s2 = QuizSubmission.quiz_id s1 ->
  submit_quiz app s2 w1 = submit_quiz app s2 w.
Proof.
  intros H1 Hid.
  apply submit_quiz_inr in H1
    as (v & d & questions & items & score & Hv & Hmd & Hq & Hi & Ht & _ & ->).
  rewrite <- Hid in *.
  rewrite (submit_quiz_stored app s2 w v Hv), Hmd, Hq, Hi.
  erewrite submit_quiz_stored; [|simpl; apply lookup_insert_eq].
  simpl. rewrite !lookup_insert_ne by done. rewrite Hq, Hi.
  destruct (tally_succeeds _ (QuizSubmission.responses s2) _ _ 0 _ Ht) as [score2 ->].
  unfold scored_world. simpl. by rewrite scored_again, insert_insert_eq.
Qed.

Lemma submit_quiz_last_wins_witness :
  submit_quiz app1 empty_submission world1
    = (inr (PDict {[ "score" := PInt 0; "total" := PInt 1 ]}),
       snd (submit_quiz app1 empty_submission world1)) /\
  QuizSubmission.quiz_id submission1 = QuizSubmission.quiz_id empty_submission /\
  submit_quiz app1 submission1 (snd (submit_quiz app1 empty_submission world1))
    = submit_quiz app1 submission1 world1.
Proof.
  split; [vm_compute; reflexivity|]. split; [reflexivity|].
  apply (submit_quiz_last_wins app1 empty_submission submission1 world1
           (PDict {[ "score" := PInt 0; "total" := PInt 1 ]})
           (snd (submit_quiz app1 empty_submission world1))).
  - vm_compute. reflexivity.
  - reflexivity.
Defined.

(** X4: successful submissions for two different quizzes do not
    interfere: made in the other order, each gets the same response and
    the world ends the same. *)
Theorem submit_quiz_commute app s1 s2 w r1 w1 r2 w12 :
  QuizSubmission.quiz_id s1 <> QuizSubmission.quiz_id s2 ->
  submit_quiz app s1 w = (inr r1, w1) ->
  submit_quiz app s2 w1 = (inr r2, w12) ->
  exists w2,
    submit_quiz app s2 w = (inr r2, w2) /\
    submit_quiz app s1 w2 = (inr r1, w12).
Proof.
  intros Hne H1 H2.
  apply submit_quiz_inr in H1
    as (v1 & d1 & qs1 & items1 & score1 & Hv1 & Hmd1 & Hq1 & Hi1 & Ht1 & -> & ->).
  apply submit_quiz_inr in H2
    as (v2 & d2 & qs2 & items2 & score2 & Hv2 & Hmd2 & Hq2 & Hi2 & Ht2 & -> & ->).
  simpl in Hv2. rewrite lookup_insert_ne in Hv2 by done.
  exists (scored_world w (QuizSubmission.quiz_id s2) v2 d2 score2). split.
  - by rewrite (submit_quiz_stored app s2 w v2 Hv2), Hmd2, Hq2, Hi2, Ht2.
  - erewrite submit_quiz_stored;
      [|simpl; rewrite lookup_insert_ne by done; exact Hv1].
    rewrite Hmd1, Hq1, Hi1, Ht1. unfold scored_world. simpl.
    by rewrite insert_insert_ne.
Qed.

Lemma submit_quiz_commute_witness :
  QuizSubmission.quiz_id submission1 <> QuizSubmission.quiz_id submission2 /\
  submit_quiz app1 submission1 world3
    = (inr (PDict {[ "score" := PInt 1; "total" := PInt 1 ]}),
       snd (submit_quiz app1 submission1 world3)) /\
  submit_quiz app1 submission2 (snd (submit_quiz app1 submission1 world3))
    = (inr (PDict {[ "score" := PInt 0; "total" := PInt 1 ]}),
       snd (submit_quiz app1 submission2 (snd (submit_quiz app1 submission1 world3)))) /\
  exists w2,
    submit_quiz app1 submission2 world3
      = (inr (PDict {[ "score" := PInt 0; "total" := PInt 1 ]}), w2) /\
    submit_quiz app1 submission1 w2
      = (inr (PDict {[ "score" := PInt 1; "total" := PInt 1 ]}),
         snd (submit_quiz app1 submission2 (snd (submit_quiz app1 submission1 world3)))).
Proof.
  assert (QuizSubmission.quiz_id submission1 <> QuizSubmission.quiz_id submission2)
    as Hne by (vm_compute; discriminate).
  split; [exact Hne|]. split; [vm_compute; reflexivity|].
  split; [vm_compute; reflexivity|].
  eapply (submit_quiz_commute app1 submission1 submission2 world3 _ _ _ _ Hne).
  - vm_compute. reflexivity.
  - vm_compute. reflexivity.
Defined.

(** ** [generate_quiz] as a function of the model's text *)

Lemma assign_ids_stamp app qs : forall w,
  Forall is_dict qs ->
  assign_ids app qs w
  = (inr (imap (λ k, stamp app (uuid_calls w + k)) qs),
     {| index := index w; uuid_calls := uuid_calls w + length qs |}).
Proof.
  induction qs as [|q qs IH]; intros w Hd.
  - destruct w. simpl. by rewrite Nat.add_0_r.
  - apply Forall_cons in Hd as [[d ->] Hd]. simpl.
    unfold bind at 1. unfold uuid4_str at 1. unfold bind at 1. unfold lift at 1.
    simpl. unfold bind at 1. rewrite (IH _ Hd). simpl. unfold ret.
    rewrite Nat.add_0_r. do 2 f_equal.
    + f_equal. apply imap_ext. intros k x _. simpl. f_equal. lia.
    + f_equal. lia.
Qed.

Lemma redact_redacted qs :
  Forall is_dict qs -> redact qs = inr (redacted <$> qs).
Proof.
  induction 1 as [|q qs [d ->] _ IH]; simpl; [done|]. by rewrite IH.
Qed.

Lemma stamp_is_dict app n q : is_dict q -> is_dict (stamp app n q).
Proof. intros [d ->]. simpl. by eexists. Qed.

Lemma imap_stamp_dicts app n qs :
  Forall is_dict qs -> Forall is_dict (imap (λ k, stamp app (n + k)) qs).
Proof.
  intros Hd. apply Forall_lookup_2. intros k q Hk.
  rewrite list_lookup_imap in Hk.
  destruct (qs !! k) as [q0|] eqn:Hq0; [|discriminate]. injection Hk as <-.
  apply stamp_is_dict. by eapply Forall_lookup_1.
Qed.

(** The run of [generate_quiz] on a model text that holds an array of
    objects. *)
Lemma generate_quiz_objects app request w prompt response parsed :
  quiz_prompt_format app (prompt_kwargs request) = inr prompt ->
  watsonx_llm app prompt = inr response ->
  Json.loads (limits app) (payload response) = inr (PList parsed) ->
  Forall is_dict parsed ->
  generate_quiz app request w
  = (inr (generated_response app w parsed), generated_world app request w parsed).
Proof.
  intros Hp Hr Hq Hd.
  unfold generate_quiz, try_except.
  unfold bind at 1. unfold lift at 1. fold (prompt_kwargs request). rewrite Hp.
  unfold bind at 1. unfold lift at 1. rewrite Hr.
  unfold bind at 1. unfold lift at 1. fold (payload response). rewrite Hq.
  unfold bind at 1. unfold lift at 1. simpl Py.iter.
  unfold bind at 1. rewrite (assign_ids_stamp _ _ _ Hd).
  unfold bind at 1. unfold uuid4_str at 1.
  unfold bind at 1. unfold Index.upsert at 1.
  unfold bind at 1. unfold lift at 1. simpl with_items. simpl Py.iter.
  unfold bind at 1. unfold lift at 1.
  rewrite redact_redacted by by apply imap_stamp_dicts.
  unfold ret, generated_response, generated_world, quiz_metadata. simpl.
  do 4 f_equal.
  rewrite fmap_imap. done.
Qed.

Lemma model_questions_unique app request parsed parsed' :
  model_questions app request parsed -> model_questions app request parsed' ->
  parsed = parsed'.
Proof.
  intros (p & r & Hp & Hr & Hq) (p' & r' & Hp' & Hr' & Hq').
  rewrite Hp in Hp'. injection Hp' as <-.
  rewrite Hr in Hr'. injection Hr' as <-. congruence.
Qed.

(** X5: [generate_quiz] succeeds exactly when the prompt renders, the
    model answers, and [json.loads], under the limits of the
    interpreter, reads the text between the first ['['] and the last
    [']'] of the answer as an array whose items are all objects.
    Nothing else is checked: neither the number of questions nor the
    entries of a question (its text, its options, its correct answer). *)
Theorem generate_quiz_succeeds_iff app request w :
  (exists r w', generate_quiz app request w = (inr r, w')) <->
  (exists parsed, model_questions app request parsed /\ Forall is_dict parsed).
Proof.
  split.
  - intros (r & w' & H).
    apply generate_quiz_questions in H
      as (parsed & stored & client & Hm & [w1 Ha] & _).
    exists parsed. split; [done|]. by apply assign_ids_dicts in Ha as [Hd _].
  - intros (parsed & (prompt & response & Hp & Hr & Hq) & Hd).
    eexists _, _. by eapply generate_quiz_objects.
Qed.

Lemma model_questions_two : model_questions app2 req1 parsed_two.
Proof.
  eexists _, _. split; [vm_compute; reflexivity|].
  split; [vm_compute; reflexivity|]. vm_compute. reflexivity.
Qed.

Lemma generate_quiz_success_witness :
  (exists parsed, model_questions app2 req1 parsed /\ Forall is_dict parsed) /\
  (exists r w', generate_quiz app2 req1 world1 = (inr r, w')).
Proof.
  assert (exists parsed, model_questions app2 req1 parsed /\ Forall is_dict parsed)
    as Hm.
  { exists parsed_two. split; [exact model_questions_two|].
    constructor; [by eexists|]. constructor; [by eexists|]. constructor. }
  split; [exact Hm|].
  apply (proj2 (generate_quiz_succeeds_iff app2 req1 world1)). exact Hm.
Defined.

(** What the limits of the interpreter do to the handler: an integer
    of too many digits in an otherwise fine question, or a value nested
    too deep, and the request fails with a 500 and stores nothing. *)
Example generate_quiz_limits :
  generate_quiz (app_tight (dq "[{'question':'2+2?','correct_answer':"
                            +:+ sevens 701 +:+ "}]")) req1 world1
    = (inl (HTTPException 500 (StrOf ValueError)), world1) /\
  generate_quiz (app_tight (dq "[{'question':'2+2?','options':[['3','4']]}]")) req1 world1
    = (inl (HTTPException 500 (StrOf RecursionError)), world1) /\
  (exists r w',
     generate_quiz (app_tight (dq "[{'question':'2+2?','options':['3','4'],'correct_answer':"
                               +:+ sevens 700 +:+ "}]")) req1 world1
     = (inr r, w')).
Proof.
  split; [vm_compute; reflexivity|]. split; [vm_compute; reflexivity|].
  eexists _, _. vm_compute. reflexivity.
Qed.

Lemma assign_ids_calls app qs : forall w r w',
  assign_ids app qs w = (r, w') -> (uuid_calls w <= uuid_calls w')%nat.
Proof.
  induction qs as [|q qs IH]; intros w r w' H; simpl in H.
  - injection H as <- <-. lia.
  - unfold bind, uuid4_str, lift in H.
    destruct (Py.setitem q "id" _) as [e|q']; [injection H as <- <-; simpl; lia|].
    destruct (assign_ids app qs _) as [[e|rest] w1] eqn:Hrest;
      apply IH in Hrest; simpl in Hrest.
    + injection H as <- <-. lia.
    + unfold ret in H. injection H as <- <-. lia.
Qed.

(** X6: whatever makes [generate_quiz] fail (the prompt, the model, the
    text it returned, an item that is not an object), the caller gets
    status 500 with [str(e)] as detail, and no record was written or
    changed; only [uuid4()] calls may have been spent. *)
Theorem generate_quiz_failure app request w e w' :
  generate_quiz app request w = (inl e, w') ->
  index w' = index w /\
  (uuid_calls w <= uuid_calls w')%nat /\
  exists e0, e = HTTPException 500 (StrOf e0).
Proof.
  intros H. destruct (generate_quiz_inl _ _ _ _ _ H) as [Hix He].
  split; [done|]. split; [|done].
  apply try_except_inl in H as (e0 & H & _).
  apply bind_inl in H as [H|(prompt & ? & H1 & H)];
    [by apply lift_inl in H as [_ ->]|apply lift_inr in H1 as [H1 ->]].
  apply bind_inl in H as [H|(response & ? & H2 & H)];
    [by apply lift_inl in H as [_ ->]|apply lift_inr in H2 as [H2 ->]].
  apply bind_inl in H as [H|(questions & ? & H3 & H)];
    [by apply lift_inl in H as [_ ->]|apply lift_inr in H3 as [H3 ->]].
  apply bind_inl in H as [H|(items & ? & H4 & H)];
    [by apply lift_inl in H as [_ ->]|apply lift_inr in H4 as [H4 ->]].
  apply bind_inl in H as [H|(items' & w1 & H5 & H)];
    [by apply assign_ids_calls in H|].
  apply assign_ids_calls in H5.
  apply bind_inl in H as [H|(quiz_id & w2 & H6 & H)]; [discriminate|].
  unfold uuid4_str in H6. injection H6 as <- <-.
  apply bind_inl in H as [H|([] & w3 & H7 & H)]; [discriminate|].
  unfold Index.upsert in H7. simpl in H7. injection H7 as <-.
  apply bind_inl in H as [H|(items2 & ? & H8 & H)];
    [apply lift_inl in H as [_ ->]; simpl; lia|apply lift_inr in H8 as [H8 ->]].
  apply bind_inl in H as [H|(client & ? & H9 & H)];
    [apply lift_inl in H as [_ ->]; simpl; lia|discriminate].
Qed.

Lemma generate_quiz_failure_witness :
  generate_quiz (app_with "[1, 2]") req1 empty_world
    = (inl (HTTPException 500 (StrOf TypeError)),
       {| index := ∅; uuid_calls := 1 |}) /\
  index {| index := ∅; uuid_calls := 1 |} = index empty_world /\
  (uuid_calls empty_world <= uuid_calls {| index := ∅; uuid_calls := 1 |})%nat /\
  exists e0, HTTPException 500 (StrOf TypeError) = HTTPException 500 (StrOf e0).
Proof.
  split; [vm_compute; reflexivity|].
  apply (generate_quiz_failure (app_with "[1, 2]") req1 empty_world).
  vm_compute. reflexivity.
Defined.

(** X7: a successful [generate_quiz] is determined by the questions
    parsed from the model's text: the k-th stored question is the k-th
    parsed one with the id of the k-th [uuid4()] call of the request,
    the quiz id is that of the last call, the returned questions are the
    stored ones with [correct_answer] set to [None], the record is
    written with the request's [user_id], [topic] and [difficulty] and a
    vector of 768 zeros, every other record is untouched, and one
    [uuid4()] call per question plus one was made. *)
Theorem generate_quiz_outcome app request w r w' :
  generate_quiz app request w = (inr r, w') ->
  exists parsed,
    model_questions app request parsed /\
    r = generated_response app w parsed /\
    w' = generated_world app request w parsed /\
    (forall id, id <> nth_uuid app (uuid_calls w + length parsed) ->
       index w' !! id = index w !! id) /\
    uuid_calls w' = S (uuid_calls w + length parsed).
Proof.
  intros H.
  assert (exists parsed, model_questions app request parsed /\ Forall is_dict parsed)
    as (parsed & Hm & Hd).
  { apply generate_quiz_questions in H
      as (parsed & stored & client & Hm & [w1 Ha] & _).
    exists parsed. split; [done|]. by apply assign_ids_dicts in Ha as [Hd _]. }
  exists parsed. split; [done|].
  destruct Hm as (prompt & response & Hp & Hr & Hq).
  rewrite (generate_quiz_objects _ _ _ _ _ _ Hp Hr Hq Hd) in H.
  injection H as <- <-. repeat split.
  intros id Hid. simpl. by rewrite lookup_insert_ne.
Qed.

Lemma generate_quiz_outcome_witness :
  generate_quiz app1 req1 empty_world = (inr response1, world1) /\
  exists parsed,
    model_questions app1 req1 parsed /\
    response1 = generated_response app1 empty_world parsed /\
    world1 = generated_world app1 req1 empty_world parsed /\
    (forall id, id <> nth_uuid app1 (uuid_calls empty_world + length parsed) ->
       index world1 !! id = index empty_world !! id) /\
    uuid_calls world1 = S (uuid_calls empty_world + length parsed).
Proof.
  split; [vm_compute; reflexivity|].
  apply (generate_quiz_outcome app1 req1 empty_world response1 world1).
  vm_compute. reflexivity.
Defined.

(** ** Generating, then submitting *)

Lemma tally_scorable r items : forall acc,
  Forall scorable items <-> exists score, tally r items acc = inr score.
Proof.
  induction items as [|q items IH]; intros acc; simpl.
  - split; [eauto|by constructor].
  - split.
    + intros H. apply Forall_cons in H as [(id & c & Hid & Hh & Hc) H].
      rewrite Hid, Hc.
      assert (exists a, Py.get r id = inr a) as [a ->]
        by (destruct id; simpl in *; try discriminate; eauto).
      by apply IH.
    + intros [score H].
      destruct (Py.getitem q "id") as [e|id] eqn:Hid; [discriminate|].
      destruct (Py.get r id) as [e|a] eqn:Ha; [discriminate|].
      destruct (Py.getitem q "correct_answer") as [e|c] eqn:Hc; [discriminate|].
      constructor.
      * exists id, c. repeat split; try done. by destruct id.
      * eapply IH. eauto.
Qed.

Lemma tally_all_right r items : forall acc,
  Forall (answered_as_stored r) items ->
  tally r items acc = inr (acc + Z.of_nat (length items)).
Proof.
  induction items as [|q items IH]; intros acc H; simpl.
  - f_equal. lia.
  - apply Forall_cons in H as [(id & c & Hid & Hc & Hr) H].
    rewrite Hid, Hc. simpl. rewrite Hr. simpl. rewrite String.eqb_refl.
    rewrite (IH _ H). f_equal. lia.
Qed.

Lemma response_quiz_id app w parsed quiz_id client :
  generated_response app w parsed
    = PDict {[ "quiz_id" := PStr quiz_id; "questions" := PList client ]} ->
  quiz_id = nth_uuid app (uuid_calls w + length parsed) /\
  client = imap (λ k q, redacted (stamp app (uuid_calls w + k) q)) parsed.
Proof.
  intros H. split.
  - apply (f_equal (λ o, Py.getitem o "quiz_id")) in H. simpl in H.
    rewrite !lookup_insert_eq in H. by injection H as <-.
  - apply (f_equal (λ o, Py.getitem o "questions")) in H. simpl in H.
    rewrite !lookup_insert_ne in H by done. rewrite !lookup_singleton_eq in H.
    by injection H as <-.
Qed.

Lemma generated_quiz_stored app request w parsed :
  stored_quiz (generated_world app request w parsed)
    (nth_uuid app (uuid_calls w + length parsed))
    (quiz_metadata request (PList (imap (λ k, stamp app (uuid_calls w + k)) parsed)))
    (imap (λ k, stamp app (uuid_calls w + k)) parsed).
Proof.
  eexists _, _. simpl. rewrite !lookup_insert_eq. done.
Qed.

Lemma stamp_scorable app n q :
  is_dict q ->
  scorable (stamp app n q) <-> exists c, Py.getitem q "correct_answer" = inr c.
Proof.
  intros [d ->]. unfold scorable. simpl.
  rewrite lookup_insert_eq, lookup_insert_ne by done.
  split.
  - intros (id & c & _ & _ & Hc). eauto.
  - intros [c Hc]. exists (PStr (nth_uuid app n)), c. done.
Qed.

(** X8: after a successful [generate_quiz], a submission for the
    returned quiz id succeeds if and only if every question object of
    the model's text has a ["correct_answer"] entry; a quiz generated
    from a question without one is stored all the same, and every
    submission for it fails (with a 500), whatever it answers. *)
Theorem submit_after_generate app request w quiz_id client w' parsed app' submission :
  generate_quiz app request w
    = (inr (PDict {[ "quiz_id" := PStr quiz_id; "questions" := PList client ]}), w') ->
  model_questions app request parsed ->
  QuizSubmission.quiz_id submission = quiz_id ->
  (exists r2 w2, submit_quiz app' submission w' = (inr r2, w2)) <->
  Forall (λ q, exists c, Py.getitem q "correct_answer" = inr c) parsed.
Proof.
  intros H Hm Hid.
  assert (Forall is_dict parsed) as Hd.
  { pose proof H as H'. apply generate_quiz_questions in H'
      as (parsed' & stored & client' & Hm' & [w1 Ha] & _).
    rewrite (model_questions_unique _ _ _ _ Hm Hm').
    by apply assign_ids_dicts in Ha as [Hd _]. }
  destruct Hm as (prompt & response & Hp & Hr & Hq).
  rewrite (generate_quiz_objects _ _ _ _ _ _ Hp Hr Hq Hd) in H.
  assert (generated_world app request w parsed = w') as <- by congruence.
  assert (generated_response app w parsed
          = PDict {[ "quiz_id" := PStr quiz_id; "questions" := PList client ]})
    as Hresp by congruence.
  clear H. apply response_quiz_id in Hresp as [-> _].
  destruct (generated_quiz_stored app request w parsed)
    as (v & questions & Hv & Hmd & Hqs & Hi).
  rewrite <- Hid in Hv. rewrite (submit_quiz_stored app' submission _ v Hv).
  rewrite Hmd. unfold quiz_metadata. unfold quiz_metadata in Hqs. simpl in Hqs.
  destruct (_ !! "questions"%string) as [qs|]; [|discriminate].
  injection Hqs as ->. rewrite Hi.
  assert (Forall scorable (imap (λ k, stamp app (uuid_calls w + k)) parsed)
          <-> Forall (λ q, exists c, Py.getitem q "correct_answer" = inr c) parsed)
    as <-.
  { rewrite !Forall_lookup. split.
    - intros Hs k q Hk. apply (stamp_scorable app (uuid_calls w + k)).
      + by eapply Forall_lookup_1.
      + apply (Hs k). by rewrite list_lookup_imap, Hk.
    - intros Hs k q Hk. rewrite list_lookup_imap in Hk.
      destruct (parsed !! k) as [q0|] eqn:Hq0; [|discriminate].
      injection Hk as <-. apply stamp_scorable.
      + by eapply Forall_lookup_1.
      + by apply (Hs k). }
  rewrite (tally_scorable (QuizSubmission.responses submission) _ 0).
  destruct (tally _ _ 0) as [e|score].
  - split; [intros (? & ? & ?); discriminate|intros [? ?]; discriminate].
  - split; eauto.
Qed.

Lemma generate_quiz_closed_form app request w r w' :
  generate_quiz app request w = (inr r, w') ->
  exists parsed,
    model_questions app request parsed /\ Forall is_dict parsed /\
    generated_response app w parsed = r /\
    generated_world app request w parsed = w'.
Proof.
  intros H.
  assert (exists parsed, model_questions app request parsed /\ Forall is_dict parsed)
    as (parsed & Hm & Hd).
  { apply generate_quiz_questions in H
      as (parsed & stored & client & Hm & [w1 Ha] & _).
    exists parsed. split; [done|]. by apply assign_ids_dicts in Ha as [Hd _]. }
  exists parsed. split; [done|]. split; [done|].
  destruct Hm as (prompt & response & Hp & Hr & Hq).
  rewrite (generate_quiz_objects _ _ _ _ _ _ Hp Hr Hq Hd) in H.
  split; congruence.
Qed.

Lemma model_questions1 : model_questions app1 req1 [parsed_question1].
Proof.
  eexists _, _. split; [vm_compute; reflexivity|].
  split; [vm_compute; reflexivity|]. vm_compute. reflexivity.
Qed.

Lemma submit_after_generate_witness :
  generate_quiz app1 req1 empty_world
    = (inr (PDict {[ "quiz_id" := PStr quiz1_id;
                     "questions" := PList [client_question1] ]}), world1) /\
  model_questions app1 req1 [parsed_question1] /\
  QuizSubmission.quiz_id submission1 = quiz1_id /\
  ((exists r2 w2, submit_quiz app1 submission1 world1 = (inr r2, w2)) <->
   Forall (λ q, exists c, Py.getitem q "correct_answer" = inr c) [parsed_question1]).
Proof.
  split; [vm_compute; reflexivity|]. split; [exact model_questions1|].
  split; [reflexivity|].
  apply (submit_after_generate app1 req1 empty_world quiz1_id [client_question1]
           world1 [parsed_question1] app1 submission1).
  - vm_compute. reflexivity.
  - exact model_questions1.
  - reflexivity.
Defined.

(** X9: after a successful [generate_quiz], a submission for the
    returned quiz id that gives to every stored question its stored
    answer gets [score = total =] the number of questions returned. *)
Theorem submit_all_right app request w quiz_id client w' app' submission :
  generate_quiz app request w
    = (inr (PDict {[ "quiz_id" := PStr quiz_id; "questions" := PList client ]}), w') ->
  QuizSubmission.quiz_id submission = quiz_id ->
  (forall md stored,
     stored_quiz w' quiz_id md stored ->
     Forall (answered_as_stored (QuizSubmission.responses submission)) stored) ->
  exists w2,
    submit_quiz app' submission w'
    = (inr (PDict {[ "score" := PInt (Z.of_nat (length client));
                     "total" := PInt (Z.of_nat (length client)) ]}), w2).
Proof.
  intros H Hid Hall.
  apply generate_quiz_closed_form in H as (parsed & _ & _ & Hresp & <-).
  apply response_quiz_id in Hresp as [-> ->].
  pose proof (generated_quiz_stored app request w parsed) as Hs.
  specialize (Hall _ _ Hs).
  destruct Hs as (v & questions & Hv & Hmd & Hqs & Hi).
  rewrite <- Hid in Hv. rewrite (submit_quiz_stored app' submission _ v Hv).
  rewrite Hmd. unfold quiz_metadata. unfold quiz_metadata in Hqs. simpl in Hqs.
  destruct (_ !! "questions"%string) as [qs|]; [|discriminate].
  injection Hqs as ->. rewrite Hi.
  rewrite (tally_all_right _ _ 0 Hall). rewrite !length_imap. simpl.
  eauto.
Qed.

Lemma world1_stored md stored :
  stored_quiz world1 quiz1_id md stored ->
  stored = [PDict {[ "id" := PStr question1_id;
                     "question" := PStr "2+2?";
                     "options" := PList [PStr "3"; PStr "4"];
                     "correct_answer" := PStr "4" ]}].
Proof.
  intros (v & questions & Hv & <- & Hq & Hi).
  vm_compute in Hv. injection Hv as <-.
  vm_compute in Hq. injection Hq as <-.
  vm_compute in Hi. injection Hi as <-. vm_compute. reflexivity.
Qed.

Lemma submit_all_right_witness :
  generate_quiz app1 req1 empty_world
    = (inr (PDict {[ "quiz_id" := PStr quiz1_id;
                     "questions" := PList [client_question1] ]}), world1) /\
  QuizSubmission.quiz_id submission1 = quiz1_id /\
  (forall md stored,
     stored_quiz world1 quiz1_id md stored ->
     Forall (answered_as_stored (QuizSubmission.responses submission1)) stored) /\
  exists w2,
    submit_quiz app1 submission1 world1
    = (inr (PDict {[ "score" := PInt (Z.of_nat (length [client_question1]));
                     "total" := PInt (Z.of_nat (length [client_question1])) ]}), w2).
Proof.
  assert (forall md stored,
     stored_quiz world1 quiz1_id md stored ->
     Forall (answered_as_stored (QuizSubmission.responses submission1)) stored)
    as Hall.
  { intros md stored Hs. rewrite (world1_stored _ _ Hs).
    constructor; [|constructor].
    exists question1_id, "4"%string. repeat split; vm_compute; reflexivity. }
  split; [vm_compute; reflexivity|]. split; [reflexivity|]. split; [exact Hall|].
  apply (submit_all_right app1 req1 empty_world quiz1_id [client_question1]
           world1 app1 submission1).
  - vm_compute. reflexivity.
  - reflexivity.
  - exact Hall.
Defined.

(** ** Submitting nothing *)

Lemma count_none responses items :
  Forall (λ q, submitted responses q = None) items ->
  Forall (λ q, Py.getitem q "correct_answer" <> inr PNone) items ->
  count (λ q, answered_right responses q || unanswered_null responses q) items = 0.
Proof.
  unfold count. intros Hs Hc.
  induction items as [|q items IH]; [done|].
  apply Forall_cons in Hs as [Hs Hs']. apply Forall_cons in Hc as [Hc Hc'].
  simpl. unfold answered_right, unanswered_null, stored_answer. rewrite Hs.
  destruct (Py.getitem q "correct_answer") as [e|c]; simpl; [by apply IH|].
  destruct c; simpl; try by apply IH. done.
Qed.

(** X10: a successful submission that answers none of the stored
    questions (an empty [responses], or one with other keys only) gets
    score 0, provided no stored correct answer is [None]. *)
Theorem submit_nothing_scores_zero app submission w r w' :
  submit_quiz app submission w = (inr r, w') ->
  (forall md items,
     stored_quiz w (QuizSubmission.quiz_id submission) md items ->
     Forall (λ q, submitted (QuizSubmission.responses submission) q = None) items /\
     Forall (λ q, Py.getitem q "correct_answer" <> inr PNone) items) ->
  exists total, r = PDict {[ "score" := PInt 0; "total" := PInt total ]}.
Proof.
  intros H Hnone.
  apply submit_quiz_inr in H
    as (v & d & questions & items & score & Hv & Hmd & Hq & Hi & Ht & -> & _).
  destruct (Hnone (PDict d) items) as [Hs Hc].
  { exists v, questions. simpl. by rewrite Hq. }
  apply tally_count in Ht. rewrite (count_none _ _ Hs Hc) in Ht. subst score.
  eauto.
Qed.

Lemma submit_nothing_scores_zero_witness :
  submit_quiz app1 empty_submission world1
    = (inr (PDict {[ "score" := PInt 0; "total" := PInt 1 ]}),
       snd (submit_quiz app1 empty_submission world1)) /\
  (forall md items,
     stored_quiz world1 (QuizSubmission.quiz_id empty_submission) md items ->
     Forall (λ q, submitted (QuizSubmission.responses empty_submission) q = None) items /\
     Forall (λ q, Py.getitem q "correct_answer" <> inr PNone) items) /\
  exists total,
    PDict {[ "score" := PInt 0; "total" := PInt 1 ]}
    = PDict {[ "score" := PInt 0; "total" := PInt total ]}.
Proof.
  assert (forall md items,
     stored_quiz world1 (QuizSubmission.quiz_id empty_submission) md items ->
     Forall (λ q, submitted (QuizSubmission.responses empty_submission) q = None) items /\
     Forall (λ q, Py.getitem q "correct_answer" <> inr PNone) items) as Hnone.
  { intros md items Hs. rewrite (world1_stored _ _ Hs).
    split; (constructor; [|constructor]).
    - vm_compute. reflexivity.
    - vm_compute. discriminate. }
  split; [vm_compute; reflexivity|]. split; [exact Hnone|].
  apply (submit_nothing_scores_zero app1 empty_submission world1 _
           (snd (submit_quiz app1 empty_submission world1))).
  - vm_compute. reflexivity.
  - exact Hnone.
Defined.

(** ** The slice of lines 60-62 *)

Lemma length_append a b :
  String.length (a +:+ b) = (String.length a + String.length b)%nat.
Proof. induction a as [|c a IH]; simpl; [done|]. by rewrite IH. Qed.

Lemma substring_skip a : forall m b,
  substring (String.length a) m (a +:+ b) = substring 0 m b.
Proof. induction a as [|c a IH]; intros m b; simpl; [done|]. apply IH. Qed.

Lemma substring_prefix x : forall y,
  substring 0 (String.length x) (x +:+ y) = x.
Proof.
  induction x as [|c x IH]; intros y; simpl.
  - apply substring_none.
  - by rewrite IH.
Qed.

Lemma contains_append a b c :
  Str.contains (a +:+ b) c = Str.contains a c || Str.contains b c.
Proof.
  induction a as [|x a IH]; simpl; [done|]. rewrite IH. by rewrite orb_assoc.
Qed.

Lemma find_from_append c a b : forall i,
  Str.contains a c = false ->
  Str.find_from c (a +:+ String c b) i = i + Z.of_nat (String.length a).
Proof.
  induction a as [|x a IH]; intros i H; simpl in *.
  - rewrite Ascii.eqb_refl. lia.
  - apply orb_false_iff in H as [-> H]. rewrite IH by done. lia.
Qed.

Lemma find_from_skip c a b : forall i,
  Str.contains a c = false ->
  Str.find_from c (a +:+ b) i
  = if Str.contains b c then Str.find_from c b (i + Z.of_nat (String.length a)) else -1.
Proof.
  induction a as [|x a IH]; intros i H; simpl in *.
  - rewrite Z.add_0_r. destruct (Str.contains b c) eqn:Hb; [done|].
    by apply find_from_absent.
  - apply orb_false_iff in H as [-> H]. rewrite IH by done.
    destruct (Str.contains b c); [|done]. f_equal. lia.
Qed.

Lemma rfind_from_append c a b : forall i last,
  Str.rfind_from c (a +:+ b) i last
  = Str.rfind_from c b (i + Z.of_nat (String.length a)) (Str.rfind_from c a i last).
Proof.
  induction a as [|x a IH]; intros i last; simpl.
  - by rewrite Z.add_0_r.
  - rewrite IH. f_equal. lia.
Qed.

Lemma rfind_from_bound c s : forall i last,
  last < i -> Str.rfind_from c s i last < i + Z.of_nat (String.length s).
Proof.
  induction s as [|x s IH]; intros i last H; simpl; [lia|].
  specialize (IH (i + 1) (if Ascii.eqb x c then i else last)).
  destruct (Ascii.eqb x c); lia.
Qed.

Lemma append_assoc a b c : (a +:+ b) +:+ c = a +:+ (b +:+ c).
Proof.
  induction a as [|x a IH]; [done|].
  change (String x ((a +:+ b) +:+ c) = String x (a +:+ (b +:+ c))).
  exact (f_equal (String x) IH).
Qed.

Lemma slice_middle a x b :
  Str.slice (a +:+ (x +:+ b)) (Z.of_nat (String.length a))
    (Z.of_nat (String.length a) + Z.of_nat (String.length x)) = x.
Proof.
  unfold Str.slice. rewrite !length_append.
  replace (Z.to_nat (Str.adjust _ (Z.of_nat (String.length a))))
    with (String.length a) by (adjust_cases; lia).
  replace (Z.to_nat (_ - _)) with (String.length x) by (adjust_cases; lia).
  rewrite substring_skip. apply substring_prefix.
Qed.

(** X11: commentary around the array is dropped: for a response made
    of a text without ['['], then ['['], anything, [']'], then a text
    without [']'], what is handed to [json.loads] is the part from that
    ['['] to that [']'], both included, whatever lies between them. *)
Theorem payload_between_brackets pre mid post :
  Str.contains pre "[" = false ->
  Str.contains post "]" = false ->
  payload (pre +:+ "[" +:+ mid +:+ "]" +:+ post) = "[" +:+ mid +:+ "]".
Proof.
  intros Hpre Hpost. unfold payload.
  set (R := pre +:+ "[" +:+ mid +:+ "]" +:+ post).
  assert (Str.find R "[" = Z.of_nat (String.length pre)) as ->.
  { unfold R, Str.find.
    change (Str.find_from "[" (pre +:+ String "[" (mid +:+ String "]" post)) 0
            = Z.of_nat (String.length pre)).
    rewrite find_from_append by done. lia. }
  assert (R = (pre +:+ String "[" mid) +:+ String "]" post) as HR1.
  { rewrite append_assoc. reflexivity. }
  assert (Str.rfind R "]" + 1
          = Z.of_nat (String.length pre)
            + Z.of_nat (String.length ("[" +:+ mid +:+ "]"))) as ->.
  { rewrite HR1. unfold Str.rfind. rewrite rfind_from_append.
    change (Str.rfind_from "]" (String "]" post) ?i ?l)
      with (Str.rfind_from "]" post (i + 1) i).
    rewrite rfind_from_absent by done.
    change ("[" +:+ mid +:+ "]") with (String "[" (mid +:+ "]")).
    rewrite length_append. cbn [String.length]. rewrite length_append.
    cbn [String.length]. lia. }
  assert (R = pre +:+ (("[" +:+ mid +:+ "]") +:+ post)) as ->.
  { unfold R. f_equal.
    change (String "[" (mid +:+ String "]" post)
            = String "[" ((mid +:+ "]") +:+ post)).
    by rewrite append_assoc. }
  apply slice_middle.
Qed.

Lemma payload_between_brackets_witness :
  Str.contains "Sure! " "[" = false /\
  Str.contains " Hope that helps." "]" = false /\
  payload ("Sure! " +:+ "[" +:+ "1, [2], 3" +:+ "]" +:+ " Hope that helps.")
  = "[" +:+ "1, [2], 3" +:+ "]".
Proof.
  split; [reflexivity|]. split; [reflexivity|].
  apply (payload_between_brackets "Sure! " "1, [2], 3" " Hope that helps.");
    reflexivity.
Defined.

Lemma rfind_from_lower c s : forall i last,
  -1 <= last -> 0 <= i -> -1 <= Str.rfind_from c s i last.
Proof.
  induction s as [|x s IH]; intros i last H Hi; simpl; [lia|].
  apply IH; [|lia]. destruct (Ascii.eqb x c); lia.
Qed.

(** X12: when every [']'] of the response comes before its first ['[']
    (or one of the two is missing), the slice of line 62 holds no JSON
    and [json.loads] raises. *)
Theorem payload_brackets_misordered lim a b :
  Str.contains a "[" = false ->
  Str.contains b "]" = false ->
  Json.loads lim (payload (a +:+ b)) = inl JSONDecodeError.
Proof.
  intros Ha Hb.
  destruct (Str.contains b "[") eqn:Hb'.
  2: { apply loads_no_bracket. left. by rewrite contains_append, Ha, Hb'. }
  assert (payload (a +:+ b) = EmptyString) as ->; [|done].
  unfold payload. apply slice_empty.
  unfold Str.find, Str.rfind. rewrite find_from_skip, Hb' by done.
  rewrite rfind_from_append, (rfind_from_absent _ b) by done.
  destruct (find_from_present "[" b (0 + Z.of_nat (String.length a)) Hb')
    as (k & _ & ->).
  pose proof (rfind_from_bound "]" a 0 (-1) ltac:(lia)) as Hr.
  pose proof (rfind_from_lower "]" a 0 (-1) ltac:(lia) ltac:(lia)) as Hr'.
  rewrite length_append. adjust_cases; lia.
Qed.

Lemma payload_brackets_misordered_witness :
  Str.contains "1, 2] and then " "[" = false /\
  Str.contains "[3, 4" "]" = false /\
  Json.loads default_limits (payload ("1, 2] and then " +:+ "[3, 4"))
  = inl JSONDecodeError.
Proof.
  split; [reflexivity|]. split; [reflexivity|].
  apply (payload_brackets_misordered default_limits "1, 2] and then " "[3, 4");
    reflexivity.
Defined.

(** ** The shape of the stored records *)

Lemma submit_quiz_inl_world app submission w e w' :
  submit_quiz app submission w = (inl e, w') -> w' = w.
Proof.
  intros H.
  destruct (index w !! QuizSubmission.quiz_id submission) as [v|] eqn:Hv.
  - rewrite (submit_quiz_stored _ _ _ _ Hv) in H.
    destruct (metadata v) as [| | | | | |d]; try (by injection H as _ <-).
    destruct (d !! "questions"%string) as [questions|]; [|by injection H as _ <-].
    destruct (Py.iter questions) as [e1|items]; [by injection H as _ <-|].
    destruct (tally _ items 0) as [e1|score]; [by injection H as _ <-|].
    discriminate.
  - rewrite (submit_quiz_absent _ _ _ Hv) in H. by injection H as _ <-.
Qed.

Lemma stamped_questions_ok app n parsed :
  Forall is_dict parsed ->
  Forall question_ok (imap (λ k, stamp app (n + k)) parsed).
Proof.
  intros Hd. apply Forall_lookup_2. intros k q Hk.
  rewrite list_lookup_imap in Hk.
  destruct (parsed !! k) as [q0|] eqn:Hq0; [|discriminate]. injection Hk as <-.
  destruct (Forall_lookup_1 _ _ _ _ Hd Hq0) as [d ->].
  eexists _, _. split; [reflexivity|]. apply lookup_insert_eq.
Qed.

(** X13: both handlers keep the shape of the index: if every stored
    record is a metadata [dict] with [str] entries [user_id], [topic],
    [difficulty] and a list [questions] of [dict]s with a [str] id, so
    is every stored record after [generate_quiz] and after
    [submit_quiz], whether the call succeeded or failed. *)
Theorem handlers_keep_store_shape w :
  store_ok w ->
  (forall app request r w', generate_quiz app request w = (r, w') -> store_ok w') /\
  (forall app submission r w', submit_quiz app submission w = (r, w') -> store_ok w').
Proof.
  intros Hok. split.
  - intros app request [e|r] w' H.
    + apply generate_quiz_inl in H as [Hix _]. intros id v. rewrite Hix. apply Hok.
    + apply generate_quiz_closed_form in H as (parsed & _ & Hd & _ & <-).
      intros id v. simpl.
      destruct (decide (id = nth_uuid app (uuid_calls w + length parsed))) as [->|Hne].
      * rewrite lookup_insert_eq. intros [= <-].
        eexists _, _, _, _, _. simpl. split; [reflexivity|].
        rewrite !lookup_insert_ne by done. rewrite lookup_singleton_eq.
        rewrite lookup_insert_eq.
        rewrite (lookup_insert_ne _ "user_id"%string "topic"%string) by done.
        rewrite !lookup_insert_eq.
        repeat split. by apply stamped_questions_ok.
      * rewrite lookup_insert_ne by done. apply Hok.
  - intros app submission [e|r] w' H.
    + apply submit_quiz_inl_world in H as ->. exact Hok.
    + apply submit_quiz_inr in H
        as (v & d & questions & items & score & Hv & Hmd & Hq & Hi & Ht & _ & ->).
      intros id v'. simpl.
      destruct (decide (id = QuizSubmission.quiz_id submission)) as [->|Hne].
      * rewrite lookup_insert_eq. intros [= <-].
        destruct (Hok _ _ Hv) as (d0 & its & u & t & f & Hmd0 & H1 & H2 & H3 & H4 & H5).
        rewrite Hmd in Hmd0. injection Hmd0 as <-.
        exists (<["completed" := PBool true]> (<["score" := PInt score]> d)),
               its, u, t, f.
        simpl. rewrite !lookup_insert_ne by done. done.
      * rewrite lookup_insert_ne by done. apply Hok.
Qed.

Lemma handlers_keep_store_shape_witness :
  store_ok world1 /\
  ((forall app request r w',
      generate_quiz app request world1 = (r, w') -> store_ok w') /\
   (forall app submission r w',
      submit_quiz app submission world1 = (r, w') -> store_ok w')) /\
  store_ok world3 /\ store_ok world2.
Proof.
  assert (store_ok world1) as Hok.
  { intros id v H.
    assert (index world1
            = {[ quiz1_id := {| values := replicate 768 0;
                                metadata := quiz_metadata req1 (PList [stored_question1]) |} ]})
      as Hix by (vm_compute; reflexivity).
    rewrite Hix in H. apply lookup_singleton_Some in H as [_ <-].
    exists {[ "user_id" := PStr "u1"; "topic" := PStr "Photosynthesis";
              "difficulty" := PStr "easy";
              "questions" := PList [stored_question1] ]},
           [stored_question1], "u1"%string, "Photosynthesis"%string, "easy"%string.
    split; [reflexivity|]. split; [vm_compute; reflexivity|]. split.
    { constructor; [|constructor]. eexists _, question1_id.
      split; [reflexivity|]. vm_compute. reflexivity. }
    repeat split; vm_compute; reflexivity. }
  split; [exact Hok|].
  pose proof (handlers_keep_store_shape world1 Hok) as Hkeep.
  split; [exact Hkeep|]. destruct Hkeep as [Hg Hs]. split.
  - apply (Hg app1 req1 (fst (generate_quiz app1 req1 world1)) world3).
    apply surjective_pairing.
  - apply (Hs app1 submission1 (fst (submit_quiz app1 submission1 world1)) world2).
    apply surjective_pairing.
Defined.

(** ** The quiz id *)

(** X14: the quiz id a successful [generate_quiz] returns is not empty,
    and it is the id of none of the returned questions when the
    [uuid4()] calls of the request returned different UUIDs. *)
Theorem generate_quiz_id_fresh app request w quiz_id client w' :
  generate_quiz app request w
    = (inr (PDict {[ "quiz_id" := PStr quiz_id; "questions" := PList client ]}), w') ->
  distinct_uuids app (uuid_calls w) (uuid_calls w' - uuid_calls w) ->
  quiz_id <> EmptyString /\
  Forall (λ c, Py.getitem c "id" <> inr (PStr quiz_id)) client.
Proof.
  intros H Hd.
  apply generate_quiz_closed_form in H as (parsed & _ & Hdict & Hresp & <-).
  apply response_quiz_id in Hresp as [-> ->]. simpl in Hd.
  split; [apply nth_uuid_nonempty|].
  apply Forall_lookup_2. intros k c Hk.
  rewrite list_lookup_imap in Hk.
  destruct (parsed !! k) as [q|] eqn:Hq; [|discriminate]. injection Hk as <-.
  destruct (Forall_lookup_1 _ _ _ _ Hdict Hq) as [d ->]. simpl.
  rewrite lookup_insert_ne by done. rewrite lookup_insert_eq.
  intros Heq'.
  assert (nth_uuid app (uuid_calls w + k)
          = nth_uuid app (uuid_calls w + length parsed)) as Heq by congruence.
  clear Heq'. unfold nth_uuid in Heq.
  apply str_inj in Heq; [|apply uuid4_bound ..].
  apply lookup_lt_Some in Hq.
  apply (Hd (uuid_calls w + k)%nat (uuid_calls w + length parsed)%nat); [lia|lia|done].
Qed.

Lemma generate_quiz_id_fresh_witness :
  generate_quiz app1 req1 empty_world
    = (inr (PDict {[ "quiz_id" := PStr quiz1_id;
                     "questions" := PList [client_question1] ]}), world1) /\
  distinct_uuids app1 (uuid_calls empty_world)
    (uuid_calls world1 - uuid_calls empty_world) /\
  quiz1_id <> EmptyString /\
  Forall (λ c, Py.getitem c "id" <> inr (PStr quiz1_id)) [client_question1].
Proof.
  assert (distinct_uuids app1 (uuid_calls empty_world)
            (uuid_calls world1 - uuid_calls empty_world)) as Hd.
  { intros i j Hi Hj. vm_compute in Hj.
    assert (i = 0%nat) as -> by (simpl in Hi; lia).
    assert (j = 1%nat) as -> by (simpl in Hi; lia).
    vm_compute. discriminate. }
  split; [vm_compute; reflexivity|]. split; [exact Hd|].
  apply (generate_quiz_id_fresh app1 req1 empty_world quiz1_id [client_question1] world1);
    [vm_compute; reflexivity|exact Hd].
Defined.

(** A quiz generated from a question without an answer is stored, and
    then no submission for it gets through. *)
Example unanswerable_quiz :
  let run := generate_quiz (app_with unanswerable_text) req1 empty_world in
  (exists r, fst run = inr r) /\
  fst (submit_quiz app1
         {| QuizSubmission.user_id := "u1";
            QuizSubmission.quiz_id := "00000000-0000-4000-8000-000000000002";
            QuizSubmission.responses := ∅ |} (snd run))
  = inl (HTTPException 500 (StrOf (KeyError "correct_answer"))).
Proof. split; [eexists; vm_compute; reflexivity|vm_compute; reflexivity]. Qed.
